(** * KubeApi-Exporter: the list facade of [index.js]

    A shallow embedding of [src/index.js]: the configuration loader
    [loadKubeConfigRobust], the query normaliser [parseListParams], the two
    responders [sendList] and [sendError], and the ten [app.get] routes,
    together with the part of JavaScript they rely on (truthiness, [||],
    [?.], property reads, [Number] on strings, [path.join]). *)

From Stdlib Require Import Bool List ZArith QArith Ascii String Lia.
From Stdlib Require DecimalString DecimalN DecimalPos.
Import ListNotations.
Open Scope string_scope.
Local Set Warnings "-register-all".

(** ** JavaScript values *)

Module Js.

(** A Number, that is a double.  [Fin q] is the finite Number whose value is
    the rational [q]; the Numbers made by a conversion are rounded to the
    nearest double first (see [ToNumber.nearest]), so their [q] is a double's
    exact value.  Negative zero is a value of its own, as in the language. *)
Inductive number : Type :=
| NaN
| Inf (negative : bool)
| NegZero
| Fin (q : Q).

Definition of_nat (n : nat) : number := Fin (inject_Z (Z.of_nat n)).
Definition of_Z (z : Z) : number := Fin (inject_Z z).

(** ToBoolean on a Number: [0], [-0] and [NaN] are falsy. *)
Definition number_truthy (n : number) : bool :=
  match n with
  | NaN => false
  | Inf _ => true
  | NegZero => false
  | Fin q => negb (Qnum q =? 0)%Z
  end.

(** The Number is an integer ([Number.isInteger]). *)
Definition is_integer (n : number) : bool :=
  match n with
  | NaN => false
  | Inf _ => false
  | NegZero => true
  | Fin q => (Z.pos (Qden (Qred q)) =? 1)%Z
  end.

(** The values a handler sees: JSON data plus [undefined].  An object is the
    list of its own properties in insertion order.  Strings are sequences of
    8-bit code units. *)
Inductive value : Type :=
| VUndefined
| VNull
| VBool (b : bool)
| VNum (n : number)
| VStr (s : string)
| VArr (elems : list value)
| VObj (props : list (string * value)).

(** How an evaluation ends: with a result, or by throwing a value. *)
Inductive completion (A : Type) : Type :=
| Normal (a : A)
| Throw (e : value).
Arguments Normal {A} a.
Arguments Throw {A} e.

(** A TypeError, as far as the handlers look into it: its message. *)
Definition TypeError (message : string) : value :=
  VObj [("message", VStr message)].

(** ToBoolean. *)
Definition truthy (v : value) : bool :=
  match v with
  | VUndefined => false
  | VNull => false
  | VBool b => b
  | VNum n => number_truthy n
  | VStr s => negb (s =? "")
  | VArr _ => true
  | VObj _ => true
  end.

(** [a || b] (both operands of the source are free of effects). *)
Definition or_else (a b : value) : value := if truthy a then a else b.

Fixpoint lookup (k : string) (props : list (string * value)) : value :=
  match props with
  | [] => VUndefined
  | (k', v) :: rest => if k =? k' then v else lookup k rest
  end.

(** [v.k] for the property names the source reads ([body], [items],
    [length], [metadata], [continue], [resourceVersion], [response],
    [statusCode], [message]) on a value that is neither [undefined] nor
    [null]: an own property of an object, the [length] of an array or of a
    string, and [undefined] on everything else. *)
Definition get (v : value) (k : string) : value :=
  match v with
  | VObj props => lookup k props
  | VArr elems => if k =? "length" then VNum (of_nat (List.length elems)) else VUndefined
  | VStr s => if k =? "length" then VNum (of_nat (String.length s)) else VUndefined
  | _ => VUndefined
  end.

(** [v?.k]: [undefined] when [v] is [undefined] or [null]. *)
Definition opt_get (v : value) (k : string) : value :=
  match v with
  | VUndefined => VUndefined
  | VNull => VUndefined
  | _ => get v k
  end.

End Js.
Export Js.

(** ** [Number] applied to a string *)

Module ToNumber.

Definition code (c : ascii) : N := N_of_ascii c.

(** White space and line terminators among the code units below 256. *)
Definition is_space (c : ascii) : bool :=
  let n := code c in
  ((9 <=? n) && (n <=? 13) || (n =? 32) || (n =? 160))%N.

Fixpoint trim_start (s : string) : string :=
  match s with
  | String c r => if is_space c then trim_start r else s
  | EmptyString => EmptyString
  end.

Fixpoint trim_end (s : string) : string :=
  match s with
  | String c r =>
      let r' := trim_end r in
      if is_space c && (r' =? "") then EmptyString else String c r'
  | EmptyString => EmptyString
  end.

Definition trim (s : string) : string := trim_end (trim_start s).

(** The value of a digit in base 16 (letters in either case). *)
Definition hex_val (c : ascii) : option N :=
  let n := code c in
  if ((48 <=? n) && (n <=? 57))%N then Some (n - 48)%N
  else if ((97 <=? n) && (n <=? 102))%N then Some (n - 87)%N
  else if ((65 <=? n) && (n <=? 70))%N then Some (n - 55)%N
  else None.

Definition digit_in (radix : N) (c : ascii) : option N :=
  match hex_val c with
  | Some d => if (d <? radix)%N then Some d else None
  | None => None
  end.

(** The longest prefix of digits of the radix, and what follows it. *)
Fixpoint take_digits (radix : N) (s : string) : list N * string :=
  match s with
  | String c r =>
      match digit_in radix c with
      | Some d => let (ds, r') := take_digits radix r in (d :: ds, r')
      | None => ([], s)
      end
  | EmptyString => ([], EmptyString)
  end.

Definition digits_value (radix : N) (ds : list N) : Z :=
  Z.of_N (fold_left (fun acc d => acc * radix + d)%N ds 0%N).

Definition pow10 (e : Z) : Q :=
  if (0 <=? e)%Z then inject_Z (10 ^ e) else 1 # Z.to_pos (10 ^ (- e)).

(** The [e] with [2^e <= n/d < 2^(e+1)]. *)
Definition ilog2 (n d : positive) : Z :=
  let e0 := (Z.log2 (Z.pos n) - Z.log2 (Z.pos d))%Z in
  if (Z.pos n * 2 ^ Z.max 0 (- e0) <? Z.pos d * 2 ^ Z.max 0 e0)%Z
  then (e0 - 1)%Z else e0.

(** [num/den] rounded to the nearest integer, a tie going to the even one. *)
Definition round_half_even (num den : Z) : Z :=
  let m := (num / den)%Z in
  match (2 * (num mod den) ?= den)%Z with
  | Lt => m
  | Gt => (m + 1)%Z
  | Eq => if Z.even m then m else (m + 1)%Z
  end.

(** The Number value for the positive rational [n/d]: the nearest double,
    ties to even.  Doubles around [n/d] are the multiples of [2^qe], where
    [qe] leaves 53 significant bits and is not below that of the subnormals;
    what rounds to [2^1024] or more is [Infinity], what rounds to nothing is
    [0]. *)
Definition nearest_pos (n d : positive) : number :=
  let qe := Z.max (ilog2 n d - 52) (-1074) in
  let m := round_half_even (Z.pos n * 2 ^ Z.max 0 (- qe)) (Z.pos d * 2 ^ Z.max 0 qe) in
  if (0 <=? qe)%Z && (2 ^ 1024 <=? m * 2 ^ qe)%Z then Inf false
  else Fin (Qred ((m * 2 ^ Z.max 0 qe) # Z.to_pos (2 ^ Z.max 0 (- qe)))).

Definition negate (n : number) : number :=
  match n with
  | NaN => NaN
  | Inf b => Inf (negb b)
  | NegZero => Fin 0
  | Fin q => if (Qnum q =? 0)%Z then NegZero else Fin (Qred (- q))
  end.

(** The Number value for a rational. *)
Definition nearest (q : Q) : number :=
  match Qnum q with
  | Z0 => Fin 0
  | Z.pos n => nearest_pos n (Qden q)
  | Z.neg n => negate (nearest_pos n (Qden q))
  end.

(** ExponentPart, optional, up to the end of the literal. *)
Definition exponent (s : string) : option Z :=
  match s with
  | EmptyString => Some 0%Z
  | String c r =>
      if (c =? "e")%char || (c =? "E")%char then
        let (neg, r1) :=
          match r with
          | String "+" r1 => (false, r1)
          | String "-" r1 => (true, r1)
          | _ => (false, r)
          end in
        match take_digits 10 r1 with
        | ((_ :: _) as ds, EmptyString) =>
            let e := digits_value 10 ds in Some (if neg then - e else e)%Z
        | _ => None
        end
      else None
  end.

(** StrUnsignedDecimalLiteral: [Infinity], or digits with an optional
    fraction (one of the two digit runs may be empty, not both) and an
    optional exponent. *)
Definition unsigned_decimal (s : string) : option number :=
  if s =? "Infinity" then Some (Inf false)
  else
    let (int_ds, r1) := take_digits 10 s in
    let (frac_ds, r2) :=
      match r1 with
      | String "." r => take_digits 10 r
      | _ => ([], r1)
      end in
    match (int_ds ++ frac_ds)%list with
    | [] => None
    | ds =>
        match exponent r2 with
        | Some e =>
            Some (nearest (Qmult (inject_Z (digits_value 10 ds))
                                 (pow10 (e - Z.of_nat (List.length frac_ds)))))
        | None => None
        end
    end.

(** NonDecimalIntegerLiteral: [0x], [0o], [0b] (prefix letter in either
    case) followed by at least one digit and nothing else. *)
Definition non_decimal (s : string) : option (option number) :=
  match s with
  | String "0" (String p r) =>
      let radix :=
        if (p =? "x")%char || (p =? "X")%char then Some 16%N
        else if (p =? "o")%char || (p =? "O")%char then Some 8%N
        else if (p =? "b")%char || (p =? "B")%char then Some 2%N
        else None in
      match radix with
      | Some b =>
          match take_digits b r with
          | ((_ :: _) as ds, EmptyString) =>
              Some (Some (nearest (inject_Z (digits_value b ds))))
          | _ => Some None
          end
      | None => None
      end
  | _ => None
  end.

(** StringToNumber: the trimmed string is empty (giving [0]), a
    StrNumericLiteral (giving the Number value for what it denotes), or the
    result is [NaN]. *)
Definition StringToNumber (s : string) : number :=
  let t := trim s in
  if t =? "" then Fin 0
  else
    match non_decimal t with
    | Some (Some n) => n
    | Some None => NaN
    | None =>
        let r :=
          match t with
          | String "+" u => unsigned_decimal u
          | String "-" u => option_map negate (unsigned_decimal u)
          | _ => unsigned_decimal t
          end in
        match r with
        | Some n => n
        | None => NaN
        end
    end.

End ToNumber.
Export ToNumber.

(** ** The request *)

(** What the query-string parser puts under a key of [req.query]: a string,
    an array (a repeated key) or a nested object (a bracketed key). *)
Inductive qvalue : Type :=
| QStr (s : string)
| QArr (elems : list qvalue)
| QObj (props : list (string * qvalue)).

Fixpoint to_value (q : qvalue) : value :=
  match q with
  | QStr s => VStr s
  | QArr elems => VArr (map to_value elems)
  | QObj props => VObj (map (fun kv => (fst kv, to_value (snd kv))) props)
  end.

(** The object has an own property of that name. *)
Definition has_own (k : string) (props : list (string * qvalue)) : bool :=
  existsb (fun kv => fst kv =? k) props.

(** What the engine throws when neither [valueOf] nor [toString] turns an
    object into a primitive (the message is the one of V8). *)
Definition cannot_convert : value :=
  TypeError "Cannot convert object to primitive value".

(** The conversion of a query value to a primitive string.  An array joins
    the strings of its elements with commas, from left to right.  An object
    answers with the inherited [toString], [[object Object]], unless a
    property of its own hides it: the values of a query are never functions,
    so an own [toString] cannot be called, the inherited [valueOf] returns
    the object itself, and the conversion throws. *)
Fixpoint ToString (q : qvalue) : completion string :=
  match q with
  | QStr s => Normal s
  | QArr elems =>
      match
        fold_right
          (fun elem rest =>
             match ToString elem, rest with
             | Throw e, _ => Throw e
             | Normal _, Throw e => Throw e
             | Normal s, Normal ss => Normal (s :: ss)
             end)
          (Normal []) elems
      with
      | Normal parts => Normal (String.concat "," parts)
      | Throw e => Throw e
      end
  | QObj props =>
      if has_own "toString" props then Throw cannot_convert
      else Normal "[object Object]"
  end.

(** [Number(q)]: an array or object is first turned into its string. *)
Definition Number (q : qvalue) : completion number :=
  match ToString q with
  | Normal s => Normal (StringToNumber s)
  | Throw e => Throw e
  end.

Record Request : Type := { query : list (string * qvalue) }.

Fixpoint query_lookup (k : string) (q : list (string * qvalue)) : option qvalue :=
  match q with
  | [] => None
  | (k', v) :: rest => if k =? k' then Some v else query_lookup k rest
  end.

(** [req.query.k] as a value: [undefined] when the key is absent. *)
Definition query_get (req : Request) (k : string) : value :=
  match query_lookup k (query req) with
  | Some q => to_value q
  | None => VUndefined
  end.

(** ** The query normaliser *)

Record ListParams : Type := {
  namespace : value;
  labelSelector : value;
  fieldSelector : value;
  limit : value;
  _continue : value;
  resourceVersion : value
}.

(** [req.query.limit ? Number(req.query.limit) : undefined] *)
Definition parse_limit (req : Request) : completion value :=
  match query_lookup "limit" (query req) with
  | Some q =>
      if truthy (to_value q) then
        match Number q with
        | Normal n => Normal (VNum n)
        | Throw e => Throw e
        end
      else Normal VUndefined
  | None => Normal VUndefined
  end.

(** The only step that can throw is the conversion of the limit. *)
Definition parseListParams (req : Request) : completion ListParams :=
  match parse_limit req with
  | Normal limit' =>
      Normal
        {| namespace := or_else (query_get req "namespace") VNull;
           labelSelector := or_else (query_get req "labelSelector") VUndefined;
           fieldSelector := or_else (query_get req "fieldSelector") VUndefined;
           limit := limit';
           _continue := or_else (query_get req "continue") VUndefined;
           resourceVersion := or_else (query_get req "resourceVersion") VUndefined |}
  | Throw e => Throw e
  end.

(** ** The response and the two responders *)

(** The response object as the handlers drive it: the status given to
    [res.status] (200 until then) and the payload given to [res.json]. *)
Record Response : Type := {
  statusCode : value;
  sent : option value
}.

Definition fresh : Response :=
  {| statusCode := VNum (of_nat 200); sent := None |}.

Definition res_status (res : Response) (code : value) : Response :=
  {| statusCode := code; sent := sent res |}.

Definition res_json (res : Response) (payload : value) : Response :=
  {| statusCode := statusCode res; sent := Some payload |}.

(** What a list call of the client resolves to. *)
Record ApiResponse : Type := {
  response : value;
  body : value
}.

Definition sendList (res : Response) (apiResp : ApiResponse) : Response :=
  let body' := or_else (body apiResp) (VObj []) in
  let items := or_else (get body' "items") (VArr []) in
  res_json res
    (VObj [ ("count", get items "length");
            ("continue", or_else (opt_get (get body' "metadata") "continue") VNull);
            ("resourceVersion",
               or_else (opt_get (get body' "metadata") "resourceVersion") VNull);
            ("items", items) ]).

Definition sendError (res : Response) (err : value) : Response :=
  let status :=
    or_else (opt_get (opt_get err "response") "statusCode") (VNum (of_nat 500)) in
  let details :=
    or_else (opt_get (opt_get err "response") "body")
            (VObj [("message", or_else (opt_get err "message") (VStr "Unknown error"))]) in
  res_json (res_status res status)
    (VObj [ ("error", VStr "K8S_API_ERROR");
            ("status", status);
            ("details", details) ]).

(** ** The routes *)

Inductive client : Type := core | apps | net.

Inductive method : Type :=
| listNamespace
| listNamespacedPod | listPodForAllNamespaces
| listNamespacedService | listServiceForAllNamespaces
| listNode
| listNamespacedDeployment | listDeploymentForAllNamespaces
| listNamespacedDaemonSet | listDaemonSetForAllNamespaces
| listNamespacedStatefulSet | listStatefulSetForAllNamespaces
| listNamespacedIngress | listIngressForAllNamespaces
| listNamespacedEvent | listEventForAllNamespaces.

(** A call on a client, with its arguments in the order the source writes
    them. *)
Record call : Type := {
  on : client;
  meth : method;
  args : list value
}.

(** The promise of a call settles one way or the other. *)
Inductive outcome : Type :=
| Resolved (apiResp : ApiResponse)
| Rejected (err : value).

(** The client and the control plane behind it, as the facade sees them:
    what a call of a client method settles to (a call that throws inside the
    client counts as one that rejects). *)
Definition upstream : Type := call -> outcome.

(** The seven arguments every list call ends with, as the source writes
    them: two [undefined] (it calls them [pretty] and [allowWatchBookmarks]),
    then [p._continue], [p.fieldSelector], [p.labelSelector], [p.limit] and
    [p.resourceVersion]. *)
Definition list_args (p : ListParams) : list value :=
  [ VUndefined; VUndefined; _continue p; fieldSelector p; labelSelector p;
    limit p; resourceVersion p ].

(** [try { resp = await c; sendList(res, resp) } catch (e) { sendError(res, e) }],
    with the calls made on the way. *)
Definition relay (up : upstream) (c : call) (res : Response) : list call * Response :=
  match up c with
  | Resolved resp => ([c], sendList res resp)
  | Rejected e => ([c], sendError res e)
  end.

(** The paths registered with [app.get]. *)
Inductive route : Type :=
| Health | Namespaces | Pods | Services | Nodes
| Deployments | DaemonSets | StatefulSets | Ingresses | Events.

(** The body of every list handler:
    [try { const p = parseListParams(req); ... } catch (e) { sendError(res, e); }]
    when it is the normalisation that throws, no call has been made. *)
Definition with_params (req : Request) (res : Response)
    (rest : ListParams -> list call * Response) : list call * Response :=
  match parseListParams req with
  | Normal p => rest p
  | Throw e => ([], sendError res e)
  end.

Definition handle (up : upstream) (r : route) (req : Request) (res : Response)
  : list call * Response :=
  match r with
  | Health => ([], res_json res (VObj [("ok", VBool true)]))
  | Namespaces =>
      with_params req res (fun params =>
        relay up {| on := core; meth := listNamespace; args := list_args params |} res)
  | Pods =>
      with_params req res (fun p =>
        if truthy (namespace p)
        then relay up {| on := core; meth := listNamespacedPod;
                         args := namespace p :: list_args p |} res
        else relay up {| on := core; meth := listPodForAllNamespaces;
                         args := list_args p |} res)
  | Services =>
      with_params req res (fun p =>
        if truthy (namespace p)
        then relay up {| on := core; meth := listNamespacedService;
                         args := namespace p :: list_args p |} res
        else relay up {| on := core; meth := listServiceForAllNamespaces;
                         args := list_args p |} res)
  | Nodes =>
      with_params req res (fun p =>
        relay up {| on := core; meth := listNode; args := list_args p |} res)
  | Deployments =>
      with_params req res (fun p =>
        if truthy (namespace p)
        then relay up {| on := apps; meth := listNamespacedDeployment;
                         args := namespace p :: list_args p |} res
        else relay up {| on := apps; meth := listDeploymentForAllNamespaces;
                         args := list_args p |} res)
  | DaemonSets =>
      with_params req res (fun p =>
        if truthy (namespace p)
        then relay up {| on := apps; meth := listNamespacedDaemonSet;
                         args := namespace p :: list_args p |} res
        else relay up {| on := apps; meth := listDaemonSetForAllNamespaces;
                         args := list_args p |} res)
  | StatefulSets =>
      with_params req res (fun p =>
        if truthy (namespace p)
        then relay up {| on := apps; meth := listNamespacedStatefulSet;
                         args := namespace p :: list_args p |} res
        else relay up {| on := apps; meth := listStatefulSetForAllNamespaces;
                         args := list_args p |} res)
  | Ingresses =>
      with_params req res (fun p =>
        if truthy (namespace p)
        then relay up {| on := net; meth := listNamespacedIngress;
                         args := namespace p :: list_args p |} res
        else relay up {| on := net; meth := listIngressForAllNamespaces;
                         args := list_args p |} res)
  | Events =>
      with_params req res (fun p =>
        if truthy (namespace p)
        then relay up {| on := core; meth := listNamespacedEvent;
                         args := namespace p :: list_args p |} res
        else relay up {| on := core; meth := listEventForAllNamespaces;
                         args := list_args p |} res)
  end.

(** ** [path.join] (POSIX) *)

Module Path.

(** The pieces of a path between its slashes. *)
Fixpoint segments (cur : string) (s : string) : list string :=
  match s with
  | EmptyString => [cur]
  | String c r =>
      if (c =? "/")%char then cur :: segments EmptyString r
      else segments (cur ++ String c EmptyString) r
  end.

(** One step of [normalizeString] on the stack of kept segments (last one
    first): empty and [.] segments are dropped, [..] removes the segment
    before it, or is kept when there is none to remove and the path may
    climb above its start. *)
Definition step (allowAboveRoot : bool) (kept : list string) (seg : string) : list string :=
  if (seg =? "") || (seg =? ".") then kept
  else if seg =? ".." then
    match kept with
    | top :: below =>
        if top =? ".." then (if allowAboveRoot then seg :: kept else kept) else below
    | [] => if allowAboveRoot then [seg] else []
    end
  else seg :: kept.

Definition normalizeString (path : string) (allowAboveRoot : bool) : string :=
  String.concat "/" (rev (fold_left (step allowAboveRoot) (segments EmptyString path) [])).

Definition starts_with_slash (s : string) : bool :=
  match s with
  | String c _ => (c =? "/")%char
  | EmptyString => false
  end.

Fixpoint ends_with_slash (s : string) : bool :=
  match s with
  | EmptyString => false
  | String c EmptyString => (c =? "/")%char
  | String _ r => ends_with_slash r
  end.

Definition normalize (path : string) : string :=
  if path =? "" then "."
  else
    let isAbsolute := starts_with_slash path in
    let trailingSeparator := ends_with_slash path in
    let p := normalizeString path (negb isAbsolute) in
    if p =? "" then
      (if isAbsolute then "/" else if trailingSeparator then "./" else ".")
    else
      let p' := if trailingSeparator then p ++ "/" else p in
      if isAbsolute then "/" ++ p' else p'.

Definition join (parts : list string) : string :=
  match filter (fun a => negb (a =? "")) parts with
  | [] => "."
  | nonempty => normalize (String.concat "/" nonempty)
  end.

End Path.

(** ** The configuration loader *)

(** What the process finds around it at start: its environment variables
    and which paths exist ([fs.existsSync]). *)
Record Host : Type := {
  env : string -> option string;
  existsSync : string -> bool
}.

(** The three loading methods of the client library's [KubeConfig], as
    results of the call on a fresh object: [None] when the call throws. *)
Record KubeConfigOps (K : Type) : Type := {
  loadFromCluster : option K;
  loadFromFile : string -> option K;
  loadFromDefault : option K
}.
Arguments loadFromCluster {K}.
Arguments loadFromFile {K}.
Arguments loadFromDefault {K}.

(** [!!v] and [filter(Boolean)] on an environment variable: unset and empty
    are both falsy. *)
Definition Boolean (v : option string) : bool :=
  match v with
  | Some s => negb (s =? "")
  | None => false
  end.

Definition saDir : string := "/var/run/secrets/kubernetes.io/serviceaccount".

Definition inCluster (h : Host) : bool :=
  Boolean (env h "KUBERNETES_SERVICE_HOST")
  && existsSync h (Path.join [saDir; "token"])
  && existsSync h (Path.join [saDir; "ca.crt"]).

Definition home (h : Host) : string :=
  match env h "HOME" with
  | Some s => if s =? "" then "/root" else s
  | None => "/root"
  end.

(** The array literal of step 2 after [.filter(Boolean)]. *)
Definition named (h : Host) : list string :=
  flat_map (fun v => match v with Some s => [s] | None => [] end)
    (filter Boolean
       [ env h "KUBECONFIG";
         Some "/etc/kubernetes/admin.conf";
         Some (Path.join [home h; ".kube"; "config"]);
         Some "/root/.kube/config";
         Some "/home/administrator/.kube/config" ]).

Definition candidates (h : Host) : list string :=
  filter (existsSync h) (named h).

Definition loadKubeConfigRobust {K : Type} (kc : KubeConfigOps K) (h : Host) : option K :=
  if inCluster h then loadFromCluster kc
  else
    match candidates h with
    | first :: _ => loadFromFile kc first
    | [] => loadFromDefault kc
    end.

(** ** Reading a response *)

(** The JSON payload of a response ([undefined] before [res.json]). *)
Definition payload (res : Response) : value :=
  match sent res with
  | Some v => v
  | None => VUndefined
  end.

(** The property of the client's list metadata that holds a field of the
    wire format: [continue] is a reserved word, and the client keeps that
    field under [_continue]; the other fields keep their names. *)
Definition client_property (k : string) : string :=
  if k =? "continue" then "_continue" else k.

(** The value the upstream response carries for a metadata field, where the
    client puts it. *)
Definition upstream_meta (apiResp : ApiResponse) (k : string) : value :=
  opt_get (get (body apiResp) "metadata") (client_property k).

(** The methods of the routes that never take a namespace. *)
Definition cluster_only (r : route) : option method :=
  match r with
  | Namespaces => Some listNamespace
  | Nodes => Some listNode
  | _ => None
  end.

(** ** The two call variants of a route *)

(** The client and the namespaced and all-namespaces methods of the routes
    that branch on [p.namespace]. *)
Definition variants (r : route) : option (client * method * method) :=
  match r with
  | Pods => Some (core, listNamespacedPod, listPodForAllNamespaces)
  | Services => Some (core, listNamespacedService, listServiceForAllNamespaces)
  | Deployments => Some (apps, listNamespacedDeployment, listDeploymentForAllNamespaces)
  | DaemonSets => Some (apps, listNamespacedDaemonSet, listDaemonSetForAllNamespaces)
  | StatefulSets => Some (apps, listNamespacedStatefulSet, listStatefulSetForAllNamespaces)
  | Ingresses => Some (net, listNamespacedIngress, listIngressForAllNamespaces)
  | Events => Some (core, listNamespacedEvent, listEventForAllNamespaces)
  | Health | Namespaces | Nodes => None
  end.

(** The routes that list: all but the liveness probe. *)
Definition lists (r : route) : bool :=
  match r with
  | Health => false
  | _ => true
  end.

(** The methods that take a namespace as their first argument. *)
Definition namespaced (m : method) : bool :=
  match m with
  | listNamespacedPod | listNamespacedService | listNamespacedDeployment
  | listNamespacedDaemonSet | listNamespacedStatefulSet
  | listNamespacedIngress | listNamespacedEvent => true
  | _ => false
  end.

(** ** The loader's precedence, as the specification words it *)

Module Spec.

Inductive strategy : Type :=
| InCluster
| FromFile (path : string)
| Default.

(** The explicit override, when [KUBECONFIG] holds a non-empty path. *)
Definition override (h : Host) : list string :=
  match env h "KUBECONFIG" with
  | Some s => if s =? "" then [] else [s]
  | None => []
  end.

(** The fixed list of well-known paths. *)
Definition well_known (h : Host) : list string :=
  [ "/etc/kubernetes/admin.conf";
    Path.join [home h; ".kube"; "config"];
    "/root/.kube/config";
    "/home/administrator/.kube/config" ].

(** In-cluster when the host marker is set (to a non-empty value) and both
    service-account files exist; otherwise the first existing file among the
    override followed by the well-known paths; otherwise the default. *)
Definition precedence (h : Host) : strategy :=
  if Boolean (env h "KUBERNETES_SERVICE_HOST")
     && existsSync h "/var/run/secrets/kubernetes.io/serviceaccount/token"
     && existsSync h "/var/run/secrets/kubernetes.io/serviceaccount/ca.crt"
  then InCluster
  else
    match find (existsSync h) (override h ++ well_known h)%list with
    | Some p => FromFile p
    | None => Default
    end.

(** Carrying a strategy out is one call of the library, whose failure is the
    failure of the whole. *)
Definition run {K : Type} (kc : KubeConfigOps K) (s : strategy) : option K :=
  match s with
  | InCluster => loadFromCluster kc
  | FromFile p => loadFromFile kc p
  | Default => loadFromDefault kc
  end.

End Spec.

(** ** Sample inputs *)

Module Samples.

Definition pod (name : string) : value :=
  VObj [("kind", VStr "Pod"); ("metadata", VObj [("name", VStr name)])].

(** A page of two pods with a continue token. *)
Definition two_pods : ApiResponse :=
  {| response := VObj [("statusCode", VNum (of_nat 200))];
     body := VObj [ ("kind", VStr "PodList");
                    ("metadata", VObj [("_continue", VStr "eyJ2IjoibWV0YSJ9");
                                       ("resourceVersion", VStr "48213")]);
                    ("items", VArr [pod "a"; pod "b"]) ] |}.

(** A response whose body has neither [items] nor [metadata]. *)
Definition bare : ApiResponse :=
  {| response := VObj [("statusCode", VNum (of_nat 200))];
     body := VObj [("kind", VStr "PodList")] |}.

(** The last page of a listing: no token, a resource version. *)
Definition last_page : ApiResponse :=
  {| response := VObj [("statusCode", VNum (of_nat 200))];
     body := VObj [ ("metadata", VObj [("resourceVersion", VStr "48213")]);
                    ("items", VArr [pod "z"]) ] |}.

(** A 404 of the API server with its Status object. *)
Definition not_found : value :=
  VObj [ ("message", VStr "HTTP request failed");
         ("response",
            VObj [ ("statusCode", VNum (of_nat 404));
                   ("body", VObj [ ("kind", VStr "Status");
                                   ("reason", VStr "NotFound");
                                   ("code", VNum (of_nat 404)) ]) ]) ].

(** A 503 whose body is the JSON literal [false]. *)
Definition unavailable_false : value :=
  VObj [ ("message", VStr "HTTP request failed");
         ("response",
            VObj [ ("statusCode", VNum (of_nat 503)); ("body", VBool false) ]) ].

(** A refused connection: an error with a message and no response. *)
Definition refused : value :=
  VObj [ ("code", VStr "ECONNREFUSED");
         ("message", VStr "connect ECONNREFUSED 127.0.0.1:6443") ].

(** An error thrown without a message. *)
Definition silent : value := VObj [].

Definition in_kube_system : Request :=
  {| query := [("namespace", QStr "kube-system")] |}.

Definition no_namespace : Request :=
  {| query := [("labelSelector", QStr "app=web")] |}.

Definition limit_fraction : Request := {| query := [("limit", QStr "2.5")] |}.

Definition limit_word : Request := {| query := [("limit", QStr "abc")] |}.

(** A control plane that answers every call with an empty list. *)
Definition quiet : upstream :=
  fun _ => Resolved {| response := VUndefined; body := VObj [("items", VArr [])] |}.

(** A host outside the cluster, started with [KUBECONFIG] naming the admin
    file, which exists. *)
Definition admin_host : Host :=
  {| env := fun k => if k =? "KUBECONFIG" then Some "/etc/kubernetes/admin.conf"
                     else if k =? "HOME" then Some "/home/kube" else None;
     existsSync := fun p => p =? "/etc/kubernetes/admin.conf" |}.

(** A pod of the cluster. *)
Definition pod_host : Host :=
  {| env := fun k => if k =? "KUBERNETES_SERVICE_HOST" then Some "10.96.0.1" else None;
     existsSync := fun p =>
       (p =? "/var/run/secrets/kubernetes.io/serviceaccount/token")
       || (p =? "/var/run/secrets/kubernetes.io/serviceaccount/ca.crt") |}.

(** A library for which no file can be read (the process may not open it,
    or it does not hold a configuration), while default discovery would
    have produced one. *)
Definition unreadable : KubeConfigOps string :=
  {| loadFromCluster := None;
     loadFromFile := fun _ => None;
     loadFromDefault := Some "default" |}.

End Samples.

(** ** The listening port *)

(** [Number(process.env.PORT || 8000)]. *)
Definition PORT (h : Host) : number :=
  match env h "PORT" with
  | Some s => if s =? "" then of_Z 8000 else StringToNumber s
  | None => of_Z 8000
  end.

(** ** Vocabulary of the further properties *)

(** The decimal numeral of a natural number, without leading zeros. *)
Definition numeral (n : N) : string :=
  DecimalString.NilEmpty.string_of_uint (N.to_uint n).

(** The digits of a decimal numeral, most significant first. *)
Fixpoint uint_digits (d : Decimal.uint) : list N :=
  match d with
  | Decimal.Nil => []
  | Decimal.D0 l => 0%N :: uint_digits l
  | Decimal.D1 l => 1%N :: uint_digits l
  | Decimal.D2 l => 2%N :: uint_digits l
  | Decimal.D3 l => 3%N :: uint_digits l
  | Decimal.D4 l => 4%N :: uint_digits l
  | Decimal.D5 l => 5%N :: uint_digits l
  | Decimal.D6 l => 6%N :: uint_digits l
  | Decimal.D7 l => 7%N :: uint_digits l
  | Decimal.D8 l => 8%N :: uint_digits l
  | Decimal.D9 l => 9%N :: uint_digits l
  end.

(** A string made of white space only. *)
Fixpoint blank (s : string) : bool :=
  match s with
  | EmptyString => true
  | String c r => is_space c && blank r
  end.

(** The keys of the query string that [parseListParams] reads. *)
Definition known_keys : list string :=
  [ "namespace"; "labelSelector"; "fieldSelector"; "limit"; "continue";
    "resourceVersion" ].

(** Where the routes write the parameters that are handed on as they come,
    counted from the last argument of the call (0 for the last). *)
Definition opaque_slots : list (string * nat) :=
  [ ("continue", 4); ("fieldSelector", 3); ("labelSelector", 2);
    ("resourceVersion", 0) ]%nat.

(** A path segment with nothing special about it: not empty, not [.] or
    [..], and without a slash. *)
Fixpoint no_slash (s : string) : bool :=
  match s with
  | EmptyString => true
  | String c r => negb (c =? "/")%char && no_slash r
  end.

Definition plain (s : string) : bool :=
  negb (s =? "") && negb (s =? ".") && negb (s =? "..") && no_slash s.

(** The absolute path made of the given segments. *)
Definition absolute (segs : list string) : string :=
  "/" ++ String.concat "/" segs.

(** The library with another in-cluster loader. *)
Definition with_loadFromCluster {K : Type} (kc : KubeConfigOps K) (x : option K)
  : KubeConfigOps K :=
  {| loadFromCluster := x;
     loadFromFile := loadFromFile kc;
     loadFromDefault := loadFromDefault kc |}.

(** ** Further sample inputs *)

Module Cases.

Definition limit_two : Request :=
  {| query := [("namespace", QStr "kube-system"); ("limit", QStr "2")] |}.

Definition limit_blank : Request := {| query := [("limit", QStr "  ")] |}.

Definition limit_minus_five : Request := {| query := [("limit", QStr "-5")] |}.

Definition limit_in_array : Request := {| query := [("limit", QArr [QStr "5"])] |}.

Definition limit_in_object : Request :=
  {| query := [("limit", QObj [("gt", QStr "5")])] |}.

(** [limit[toString]=1]: an object whose own property hides [toString]. *)
Definition limit_hides_toString : Request :=
  {| query := [("namespace", QStr "kube-system");
               ("limit", QObj [("toString", QStr "1")])] |}.

Definition labelled : Request :=
  {| query := [("labelSelector", QStr "app=web"); ("limit", QStr "2")] |}.

Definition labelled_and_traced : Request :=
  {| query := [("trace", QStr "1"); ("labelSelector", QStr "app=web");
               ("limit", QStr "2"); ("pretty", QStr "true")] |}.


(** A control plane that refuses every call. *)
Definition down : upstream := fun _ => Rejected Samples.refused.

(** An error with an embedded status and no body. *)
Definition bad_gateway : value :=
  VObj [ ("message", VStr "HTTP request failed");
         ("response", VObj [("statusCode", VNum (of_nat 502))]) ].

(** An error with an embedded body and no status code. *)
Definition body_only : value :=
  VObj [ ("message", VStr "HTTP request failed");
         ("response", VObj [("body", VStr "upstream closed the connection")]) ].

(** A response without a body. *)
Definition no_body : ApiResponse :=
  {| response := VObj [("statusCode", VNum (of_nat 204))]; body := VUndefined |}.

(** A workstation: no cluster marker, a home directory with a kubeconfig. *)
Definition workstation : Host :=
  {| env := fun k => if k =? "HOME" then Some "/home/kube" else None;
     existsSync := fun p => p =? "/home/kube/.kube/config" |}.

(** A host with the cluster marker set but no service-account files, and
    nothing else to load. *)
Definition marker_only : Host :=
  {| env := fun k => if k =? "KUBERNETES_SERVICE_HOST" then Some "10.96.0.1" else None;
     existsSync := fun _ => false |}.

(** The process started with [PORT=8000], as the process file does. *)
Definition managed : Host :=
  {| env := fun k => if k =? "PORT" then Some "8000"
                     else if k =? "KUBECONFIG" then Some "/etc/kubernetes/admin.conf"
                     else None;
     existsSync := fun p => p =? "/etc/kubernetes/admin.conf" |}.

(** A library that records which method was called. *)
Definition recording : KubeConfigOps Spec.strategy :=
  {| loadFromCluster := Some Spec.InCluster;
     loadFromFile := fun p => Some (Spec.FromFile p);
     loadFromDefault := Some Spec.Default |}.

End Cases.

Ltac unfold_responders :=
  unfold sendList, sendError, payload, res_json, res_status, upstream_meta; simpl.

(** * Properties *)

(** ** The conversions agree with the runtime on samples *)

Example number_of_literals :
  map StringToNumber
      [ "2"; "2.5"; " 12 "; ""; " "; "0x1F"; "0b101"; "1e3"; "2.50e-1"; ".5"; "5."; "-0";
        "-Infinity" ]
  = [ Fin 2; Fin (5 # 2); Fin 12; Fin 0; Fin 0; Fin 31; Fin 5; Fin 1000; Fin (1 # 4);
      Fin (1 # 2); Fin 5; NegZero; Inf true ].
Proof. vm_compute; reflexivity. Qed.

Example number_of_non_literals :
  map StringToNumber [ "abc"; "12abc"; "."; "+"; "0x"; "1e"; "-0x10"; "1_000"; "1,2" ]
  = [ NaN; NaN; NaN; NaN; NaN; NaN; NaN; NaN; NaN ].
Proof. vm_compute; reflexivity. Qed.

(** What is not a double is rounded to the nearest one, ties to even;
    beyond the largest double it is [Infinity], below the smallest it is
    zero. *)
Example number_is_rounded :
  map StringToNumber
      [ "0.1"; "9007199254740993"; "9007199254740995"; "0x20000000000001"; "1e23";
        "1e400"; "1.7976931348623159e308"; "1e-400"; "-1e-400" ]
  = [ Fin (3602879701896397 # 36028797018963968); Fin 9007199254740992;
      Fin 9007199254740996; Fin 9007199254740992; Fin 99999999999999991611392;
      Inf false; Inf false; Fin 0; NegZero ].
Proof. vm_compute; reflexivity. Qed.

Example number_of_query_values :
  map Number
      [ QArr [QStr "5"]; QArr [QStr "1"; QStr "2"]; QObj [("gt", QStr "1")];
        QObj [("toString", QStr "1")];
        QArr [QStr "1"; QObj [("toString", QStr "1")]];
        QObj [("valueOf", QStr "1")] ]
  = [ Normal (Fin 5); Normal NaN; Normal NaN; Throw cannot_convert;
      Throw cannot_convert; Normal NaN ].
Proof. vm_compute; reflexivity. Qed.

Example join_samples :
  map Path.join
      [ [saDir; "token"]; ["/root"; ".kube"; "config"]; ["/home/kube/"; ".kube"; "config"];
        ["/home/kube/.."; ".kube"; "config"]; ["work"; ".kube"; "config"]; ["/"; ".."] ]
  = [ "/var/run/secrets/kubernetes.io/serviceaccount/token"; "/root/.kube/config";
      "/home/kube/.kube/config"; "/home/.kube/config"; "work/.kube/config"; "/" ].
Proof. reflexivity. Qed.

(** ** Basic facts about the JavaScript fragment *)

Lemma or_else_truthy a b : truthy a = true -> or_else a b = a.
Proof. unfold or_else; intros ->; reflexivity. Qed.

Lemma or_else_falsy a b : truthy a = false -> or_else a b = b.
Proof. unfold or_else; intros ->; reflexivity. Qed.

(** A falsy value has no property but, for the empty string, [length]. *)
Lemma get_falsy v k :
  truthy v = false -> (k =? "length") = false -> get v k = VUndefined.
Proof.
  intros Hv Hk; destruct v; simpl in *; try reflexivity; try discriminate.
  now rewrite Hk.
Qed.

(** [(b || {}).k] reads the same as [b.k] off a possibly missing [b]. *)
Lemma get_or_empty b k :
  (k =? "length") = false -> get (or_else b (VObj [])) k = get b k.
Proof.
  intros Hk; unfold or_else; destruct (truthy b) eqn:Hb; [reflexivity|].
  now rewrite (get_falsy b k Hb Hk).
Qed.

Lemma opt_get_undefined_falsy v k :
  truthy v = false -> (k =? "length") = false -> opt_get v k = VUndefined.
Proof.
  intros Hv Hk; destruct v; simpl in *; try reflexivity; try discriminate.
  now rewrite Hk.
Qed.

(** ** The success envelope *)

(** C1. In the envelope [sendList] sends, [count] is the length of the
    [items] array; when the upstream body has no [items] (or there is no
    body), [count] is 0 and [items] is the empty array. *)
Theorem sendList_count_is_items_length (res : Response) (apiResp : ApiResponse) :
  let envelope := payload (sendList res apiResp) in
  (forall l, get envelope "items" = VArr l ->
             get envelope "count" = VNum (of_nat (List.length l))) /\
  (get (body apiResp) "items" = VUndefined ->
     get envelope "count" = VNum (of_nat 0) /\ get envelope "items" = VArr []).
Proof.
  unfold_responders; split.
  - intros l ->; reflexivity.
  - intros Hnone; rewrite get_or_empty, Hnone by reflexivity.
    split; reflexivity.
Qed.

Lemma sendList_count_is_items_length_witness :
  (get (payload (sendList fresh Samples.two_pods)) "items"
     = VArr [Samples.pod "a"; Samples.pod "b"]
   /\ get (payload (sendList fresh Samples.two_pods)) "count" = VNum (of_nat 2))
  /\ (get (body Samples.bare) "items" = VUndefined
      /\ get (payload (sendList fresh Samples.bare)) "count" = VNum (of_nat 0)
      /\ get (payload (sendList fresh Samples.bare)) "items" = VArr []).
Proof.
  split.
  - split; [reflexivity|].
    apply (proj1 (sendList_count_is_items_length fresh Samples.two_pods)
                 [Samples.pod "a"; Samples.pod "b"]).
    reflexivity.
  - split; [reflexivity|].
    apply (proj2 (sendList_count_is_items_length fresh Samples.bare)).
    reflexivity.
Defined.

(** C9. The [items] of the envelope are the [items] of the upstream body,
    the same elements in the same order. *)
Theorem sendList_items_pass_through (res : Response) (apiResp : ApiResponse)
    (l : list value) :
  get (body apiResp) "items" = VArr l ->
  get (payload (sendList res apiResp)) "items" = VArr l.
Proof.
  intros Hitems; unfold_responders.
  now rewrite get_or_empty, Hitems by reflexivity.
Qed.

Lemma sendList_items_pass_through_witness :
  get (body Samples.two_pods) "items" = VArr [Samples.pod "a"; Samples.pod "b"]
  /\ get (payload (sendList fresh Samples.two_pods)) "items"
     = VArr [Samples.pod "a"; Samples.pod "b"].
Proof.
  split; [reflexivity|].
  apply (sendList_items_pass_through fresh Samples.two_pods); reflexivity.
Defined.

(** What [sendList] puts in a metadata field of the envelope is what it
    reads under that very name in the metadata of the body, or [null]. *)
Lemma envelope_reads_metadata (res : Response) (apiResp : ApiResponse) (k : string) :
  k = "continue" \/ k = "resourceVersion" ->
  get (payload (sendList res apiResp)) k
  = or_else (opt_get (get (body apiResp) "metadata") k) VNull.
Proof.
  intros Hk; unfold_responders.
  rewrite !get_or_empty by reflexivity.
  destruct Hk as [-> | ->]; reflexivity.
Qed.

(** C3. The code misses what the claim says for [continue].  The client
    keeps the continue token of a list under [_continue]; [sendList] reads
    [continue], a property that no response of the client has, so the
    [continue] of the envelope is [null] whatever token the control plane
    gave.  The resource version is read under its own name: the envelope
    carries it as it is when it is truthy, and [null] otherwise. *)
Theorem sendList_never_relays_the_token (res : Response) (apiResp : ApiResponse) :
  opt_get (get (body apiResp) "metadata") "continue" = VUndefined ->
  let envelope := payload (sendList res apiResp) in
  get envelope "continue" = VNull
  /\ (truthy (upstream_meta apiResp "resourceVersion") = true ->
      get envelope "resourceVersion" = upstream_meta apiResp "resourceVersion")
  /\ (truthy (upstream_meta apiResp "resourceVersion") = false ->
      get envelope "resourceVersion" = VNull).
Proof.
  intros Hshape; cbv zeta.
  rewrite (envelope_reads_metadata res apiResp "continue" (or_introl eq_refl)).
  rewrite (envelope_reads_metadata res apiResp "resourceVersion" (or_intror eq_refl)).
  rewrite Hshape; unfold upstream_meta; cbn [client_property String.eqb Ascii.eqb Bool.eqb].
  repeat split.
  - apply or_else_truthy.
  - apply or_else_falsy.
Qed.

Lemma sendList_never_relays_the_token_witness :
  opt_get (get (body Samples.two_pods) "metadata") "continue" = VUndefined
  /\ upstream_meta Samples.two_pods "continue" = VStr "eyJ2IjoibWV0YSJ9"
  /\ get (payload (sendList fresh Samples.two_pods)) "continue" = VNull
  /\ get (payload (sendList fresh Samples.two_pods)) "resourceVersion" = VStr "48213".
Proof.
  split; [reflexivity|]; split; [reflexivity|].
  destruct (sendList_never_relays_the_token fresh Samples.two_pods eq_refl)
    as (Htoken & Hversion & _).
  split; [exact Htoken | exact (Hversion eq_refl)].
Defined.

(** ** The error envelope *)

(** C4, as stated, fails: an error whose embedded response has a status code
    and the body [false] is answered with that status, but [details] is
    built from the error's message, not the embedded body. *)
Lemma sendError_falsy_body_is_replaced :
  opt_get (opt_get Samples.unavailable_false "response") "statusCode" = VNum (of_nat 503)
  /\ opt_get (opt_get Samples.unavailable_false "response") "body" = VBool false
  /\ get (payload (sendError fresh Samples.unavailable_false)) "details"
     = VObj [("message", VStr "HTTP request failed")]
  /\ get (payload (sendError fresh Samples.unavailable_false)) "details" <> VBool false.
Proof. repeat split; try reflexivity; discriminate. Qed.

(** C4, amended. When the error's embedded response has a truthy status code
    (any non-zero number) and a truthy body (any object, array or non-empty
    string), the response goes out with that status code and the payload
    [{error: "K8S_API_ERROR", status, details}] whose [details] is that
    body. *)
Theorem sendError_relays_status_and_body (res : Response) (err sc b : value) :
  opt_get (opt_get err "response") "statusCode" = sc ->
  opt_get (opt_get err "response") "body" = b ->
  truthy sc = true ->
  truthy b = true ->
  sendError res err =
    {| statusCode := sc;
       sent := Some (VObj [ ("error", VStr "K8S_API_ERROR");
                            ("status", sc);
                            ("details", b) ]) |}.
Proof.
  intros Hsc Hb Tsc Tb; unfold sendError, res_json, res_status; simpl.
  rewrite Hsc, Hb, (or_else_truthy sc _ Tsc), (or_else_truthy b _ Tb).
  reflexivity.
Qed.

Lemma sendError_relays_status_and_body_witness :
  opt_get (opt_get Samples.not_found "response") "statusCode" = VNum (of_nat 404)
  /\ truthy (VNum (of_nat 404)) = true
  /\ truthy (opt_get (opt_get Samples.not_found "response") "body") = true
  /\ sendError fresh Samples.not_found =
       {| statusCode := VNum (of_nat 404);
          sent := Some (VObj [ ("error", VStr "K8S_API_ERROR");
                               ("status", VNum (of_nat 404));
                               ("details",
                                  VObj [ ("kind", VStr "Status");
                                         ("reason", VStr "NotFound");
                                         ("code", VNum (of_nat 404)) ]) ]) |}.
Proof.
  repeat (split; [reflexivity|]).
  apply (sendError_relays_status_and_body fresh Samples.not_found); reflexivity.
Defined.

(** C5. When the error carries no embedded response, the response goes out
    with status 500 and [details] is [{message: m}], [m] being the error's
    message, or ["Unknown error"] when the error has none (absent or
    empty). *)
Theorem sendError_without_response (res : Response) (err : value) :
  opt_get err "response" = VUndefined ->
  let r := sendError res err in
  statusCode r = VNum (of_nat 500) /\
  get (payload r) "error" = VStr "K8S_API_ERROR" /\
  get (payload r) "status" = VNum (of_nat 500) /\
  (forall m, opt_get err "message" = VStr m -> m <> "" ->
             get (payload r) "details" = VObj [("message", VStr m)]) /\
  (opt_get err "message" = VUndefined \/ opt_get err "message" = VStr "" ->
   get (payload r) "details" = VObj [("message", VStr "Unknown error")]).
Proof.
  intros Hnone; unfold_responders; rewrite Hnone; simpl.
  repeat split.
  - intros m -> Hm; unfold or_else; simpl.
    destruct (m =? "") eqn:E; [apply String.eqb_eq in E; contradiction | reflexivity].
  - intros [-> | ->]; reflexivity.
Qed.

Lemma sendError_without_response_witness :
  opt_get Samples.refused "response" = VUndefined
  /\ statusCode (sendError fresh Samples.refused) = VNum (of_nat 500)
  /\ get (payload (sendError fresh Samples.refused)) "details"
     = VObj [("message", VStr "connect ECONNREFUSED 127.0.0.1:6443")]
  /\ opt_get Samples.silent "message" = VUndefined
  /\ get (payload (sendError fresh Samples.silent)) "details"
     = VObj [("message", VStr "Unknown error")].
Proof.
  split; [reflexivity|]; split; [|split; [|split; [reflexivity|]]].
  - apply (sendError_without_response fresh Samples.refused); reflexivity.
  - apply (sendError_without_response fresh Samples.refused eq_refl).
    + reflexivity.
    + discriminate.
  - apply (sendError_without_response fresh Samples.silent eq_refl).
    now left.
Defined.

(** C10. Every response of [sendError] carries the payload
    [{error, status, details}], and the [status] in it is the status code
    of the response itself: the embedded status code when there is a truthy
    one, the number 500 otherwise. *)
Theorem sendError_status_agrees (res : Response) (err : value) :
  exists status details,
    sent (sendError res err)
    = Some (VObj [ ("error", VStr "K8S_API_ERROR");
                   ("status", status);
                   ("details", details) ])
    /\ statusCode (sendError res err) = status
    /\ truthy status = true
    /\ (status = opt_get (opt_get err "response") "statusCode"
        \/ (truthy (opt_get (opt_get err "response") "statusCode") = false
            /\ status = VNum (of_nat 500))).
Proof.
  unfold sendError, res_json, res_status; cbn [sent statusCode].
  do 2 eexists; split; [reflexivity|]; split; [reflexivity|].
  destruct (truthy (opt_get (opt_get err "response") "statusCode")) eqn:E.
  - rewrite (or_else_truthy _ _ E); split; [exact E | now left].
  - rewrite (or_else_falsy _ _ E); split; [reflexivity | right; split; reflexivity].
Qed.

(** ** The liveness probe *)

(** C6. The health route answers [{ok: true}] with status 200 and calls
    nothing, whatever the request and whatever the control plane would
    answer. *)
Theorem health_always_ok (up : upstream) (req : Request) :
  handle up Health req fresh =
    ([], {| statusCode := VNum (of_nat 200);
            sent := Some (VObj [("ok", VBool true)]) |}).
Proof. reflexivity. Qed.

(** ** The routes and the namespace parameter *)

Lemma relay_calls (up : upstream) (c : call) (res : Response) :
  fst (relay up c res) = [c].
Proof. unfold relay; destruct (up c); reflexivity. Qed.

(** Every value of the query string but the empty string is truthy. *)
Lemma query_value_truthy (q : qvalue) : q <> QStr "" -> truthy (to_value q) = true.
Proof.
  destruct q as [s | elems | props]; simpl; try reflexivity.
  intros Hq; destruct (s =? "") eqn:E; [|reflexivity].
  apply String.eqb_eq in E; subst; contradiction.
Qed.

(** What a normalisation that does not throw returns. *)
Lemma parseListParams_normal (req : Request) (p : ListParams) :
  parseListParams req = Normal p ->
  parse_limit req = Normal (limit p)
  /\ namespace p = or_else (query_get req "namespace") VNull
  /\ labelSelector p = or_else (query_get req "labelSelector") VUndefined
  /\ fieldSelector p = or_else (query_get req "fieldSelector") VUndefined
  /\ _continue p = or_else (query_get req "continue") VUndefined
  /\ resourceVersion p = or_else (query_get req "resourceVersion") VUndefined.
Proof.
  unfold parseListParams; destruct (parse_limit req); [|discriminate].
  intros E; injection E as <-; repeat split.
Qed.

Lemma parseListParams_of_limit (req : Request) :
  parseListParams req
  = match parse_limit req with
    | Normal l =>
        Normal
          {| namespace := or_else (query_get req "namespace") VNull;
             labelSelector := or_else (query_get req "labelSelector") VUndefined;
             fieldSelector := or_else (query_get req "fieldSelector") VUndefined;
             limit := l;
             _continue := or_else (query_get req "continue") VUndefined;
             resourceVersion := or_else (query_get req "resourceVersion") VUndefined |}
    | Throw e => Throw e
    end.
Proof. reflexivity. Qed.

Lemma namespace_absent_or_empty (req : Request) (p : ListParams) :
  parseListParams req = Normal p ->
  query_lookup "namespace" (query req) = None
  \/ query_lookup "namespace" (query req) = Some (QStr "") ->
  namespace p = VNull.
Proof.
  intros Hp H; destruct (parseListParams_normal req p Hp) as (_ & -> & _).
  unfold query_get; destruct H as [-> | ->]; reflexivity.
Qed.

Lemma namespace_present (req : Request) (p : ListParams) (q : qvalue) :
  parseListParams req = Normal p ->
  query_lookup "namespace" (query req) = Some q -> q <> QStr "" ->
  namespace p = to_value q.
Proof.
  intros Hp Hq Hne; destruct (parseListParams_normal req p Hp) as (_ & -> & _).
  unfold query_get; rewrite Hq.
  now apply or_else_truthy, query_value_truthy.
Qed.

(** When the normalisation throws, a list route calls nothing and answers
    with [sendError] of what was thrown. *)
Lemma handle_throws (up : upstream) (r : route) (req : Request) (res : Response)
    (e : value) :
  lists r = true ->
  parseListParams req = Throw e ->
  handle up r req res = ([], sendError res e).
Proof.
  intros Hr He; destruct r; try discriminate Hr;
    cbn [handle]; unfold with_params; rewrite He; reflexivity.
Qed.

(** C2, as stated, fails: the nodes route is a list route, and with a
    non-empty [namespace] in the query it still makes the one cluster-wide
    call [listNode], in which the namespace does not appear. *)
Lemma nodes_route_ignores_namespace :
  query_get Samples.in_kube_system "namespace" = VStr "kube-system"
  /\ lists Nodes = true
  /\ fst (handle Samples.quiet Nodes Samples.in_kube_system fresh)
     = [ {| on := core; meth := listNode;
            args := [ VUndefined; VUndefined; VUndefined; VUndefined;
                      VUndefined; VUndefined; VUndefined ] |} ]
  /\ namespaced listNode = false.
Proof. repeat split. Qed.

(** C2, amended. A list route whose query normalises without throwing
    makes exactly one call.  On the seven routes that have both variants
    (pods, services, deployments, daemonsets, statefulsets, ingresses,
    events) it is the all-namespaces method when [namespace] is absent or
    empty, and the namespaced method, with that very value as first
    argument, when [namespace] is present and not empty.  The namespaces
    route calls [listNamespace] and the nodes route [listNode], whatever
    [namespace] is.  When the normalisation throws (the conversion of the
    limit), no variant is called and the error path answers. *)
Theorem routes_choose_variant_by_namespace
    (up : upstream) (r : route) (req : Request) (res : Response) :
  lists r = true ->
  match parseListParams req with
  | Throw e => handle up r req res = ([], sendError res e)
  | Normal p =>
      match variants r with
      | Some (c, m_namespaced, m_all) =>
          (query_lookup "namespace" (query req) = None
           \/ query_lookup "namespace" (query req) = Some (QStr "") ->
           fst (handle up r req res)
           = [ {| on := c; meth := m_all; args := list_args p |} ])
          /\
          (forall q, query_lookup "namespace" (query req) = Some q -> q <> QStr "" ->
           fst (handle up r req res)
           = [ {| on := c; meth := m_namespaced; args := to_value q :: list_args p |} ])
      | None =>
          exists m, cluster_only r = Some m /\
            fst (handle up r req res)
            = [ {| on := core; meth := m; args := list_args p |} ]
      end
  end.
Proof.
  intros Hr.
  destruct (parseListParams req) as [p | e] eqn:Hp;
    [|exact (handle_throws up r req res e Hr Hp)].
  destruct r; try discriminate Hr; cbn [variants handle]; unfold with_params;
    rewrite Hp;
    try (split;
         [ intros Habsent; rewrite (namespace_absent_or_empty req p Hp Habsent);
           cbn [truthy]; apply relay_calls
         | intros q Hq Hne;
           rewrite (namespace_present req p q Hp Hq Hne), (query_value_truthy q Hne);
           apply relay_calls ]).
  - exists listNamespace; split; [reflexivity | apply relay_calls].
  - exists listNode; split; [reflexivity | apply relay_calls].
Qed.

Lemma routes_choose_variant_by_namespace_witness :
  lists Pods = true
  /\ query_lookup "namespace" (query Samples.in_kube_system) = Some (QStr "kube-system")
  /\ fst (handle Samples.quiet Pods Samples.in_kube_system fresh)
     = [ {| on := core; meth := listNamespacedPod;
            args := [ VStr "kube-system"; VUndefined; VUndefined; VUndefined;
                      VUndefined; VUndefined; VUndefined; VUndefined ] |} ]
  /\ query_lookup "namespace" (query Samples.no_namespace) = None
  /\ fst (handle Samples.quiet Pods Samples.no_namespace fresh)
     = [ {| on := core; meth := listPodForAllNamespaces;
            args := [ VUndefined; VUndefined; VUndefined; VUndefined;
                      VStr "app=web"; VUndefined; VUndefined ] |} ]
  /\ fst (handle Samples.quiet Nodes Samples.in_kube_system fresh)
     = [ {| on := core; meth := listNode;
            args := [ VUndefined; VUndefined; VUndefined; VUndefined;
                      VUndefined; VUndefined; VUndefined ] |} ].
Proof.
  split; [reflexivity|]; split; [reflexivity|]; split; [|split; [reflexivity|split]].
  - exact (proj2 (routes_choose_variant_by_namespace
                    Samples.quiet Pods Samples.in_kube_system fresh eq_refl)
                 (QStr "kube-system") eq_refl ltac:(discriminate)).
  - exact (proj1 (routes_choose_variant_by_namespace
                    Samples.quiet Pods Samples.no_namespace fresh eq_refl)
                 (or_introl eq_refl)).
  - destruct (routes_choose_variant_by_namespace
                Samples.quiet Nodes Samples.in_kube_system fresh eq_refl)
      as (m & Hm & Hcall).
    injection Hm as <-; exact Hcall.
Defined.

(** ** The limit parameter *)

Lemma limit_of_query (req : Request) (q : qvalue) :
  query_lookup "limit" (query req) = Some q -> q <> QStr "" ->
  parse_limit req
  = match Number q with
    | Normal n => Normal (VNum n)
    | Throw e => Throw e
    end.
Proof.
  intros Hq Hne; unfold parse_limit.
  now rewrite Hq, (query_value_truthy q Hne).
Qed.

(** Every call of a route has the limit of the parameters as its last
    argument but one. *)
Lemma limit_position (up : upstream) (r : route) (req : Request) (res : Response)
    (p : ListParams) :
  lists r = true ->
  parseListParams req = Normal p ->
  exists c, fst (handle up r req res) = [c]
            /\ nth_error (rev (args c)) 1 = Some (limit p).
Proof.
  intros Hr Hp.
  destruct r; try discriminate Hr; cbn [handle]; unfold with_params; rewrite Hp;
    try destruct (truthy (namespace p));
    (eexists; split; [apply relay_calls|]);
    cbn [args list_args rev app nth_error]; reflexivity.
Qed.

(** C8, as stated, fails: the limit is not parsed as an integer.  [2.5] is
    converted to the Number 2.5 and handed on as such. *)
Lemma limit_is_not_parsed_as_integer :
  query_lookup "limit" (query Samples.limit_fraction) = Some (QStr "2.5")
  /\ parseListParams Samples.limit_fraction
     = Normal {| namespace := VNull; labelSelector := VUndefined;
                 fieldSelector := VUndefined; limit := VNum (Fin (5 # 2));
                 _continue := VUndefined; resourceVersion := VUndefined |}
  /\ is_integer (Fin (5 # 2)) = false.
Proof. repeat split; vm_compute; reflexivity. Qed.

(** C8, amended. A non-empty [limit] is converted with [Number], the
    conversion of the language to a double (it accepts fractions, exponents,
    radix prefixes and blank strings, and rounds), and is not validated.
    When the conversion returns, whatever it returns, [NaN] included, is the
    limit of the parameters, and every list route makes its one call with
    that value as the last argument but one, where the source writes
    [p.limit].  A string always converts: to [NaN] when it is not a numeric
    literal.  When the conversion throws (an array or object may), the
    normalisation throws the same, no call is made and the route answers
    with [sendError] of what was thrown. *)
Theorem limit_is_converted_unvalidated
    (up : upstream) (r : route) (req : Request) (res : Response) (q : qvalue) :
  query_lookup "limit" (query req) = Some q ->
  q <> QStr "" ->
  lists r = true ->
  match Number q with
  | Normal n =>
      (exists p, parseListParams req = Normal p /\ limit p = VNum n)
      /\ exists c, fst (handle up r req res) = [c]
                   /\ nth_error (rev (args c)) 1 = Some (VNum n)
  | Throw e =>
      parseListParams req = Throw e
      /\ handle up r req res = ([], sendError res e)
  end
  /\ (forall s, q = QStr s -> Number q = Normal (StringToNumber s)).
Proof.
  intros Hq Hne Hr.
  pose proof (limit_of_query req q Hq Hne) as Hlimit.
  split; [|intros s ->; reflexivity].
  pose proof (parseListParams_of_limit req) as Hp; rewrite Hlimit in Hp.
  destruct (Number q) as [n | e].
  - split; [eexists; split; [exact Hp | reflexivity]|].
    destruct (limit_position up r req res _ Hr Hp) as (c & Hc & Hn).
    exists c; split; assumption.
  - split; [exact Hp | exact (handle_throws up r req res e Hr Hp)].
Qed.

Lemma limit_is_converted_unvalidated_witness :
  query_lookup "limit" (query Samples.limit_word) = Some (QStr "abc")
  /\ QStr "abc" <> QStr ""
  /\ lists Events = true
  /\ Number (QStr "abc") = Normal NaN
  /\ (exists p, parseListParams Samples.limit_word = Normal p /\ limit p = VNum NaN)
  /\ exists c, fst (handle Samples.quiet Events Samples.limit_word fresh) = [c]
               /\ nth_error (rev (args c)) 1 = Some (VNum NaN).
Proof.
  split; [reflexivity|]; split; [discriminate|]; split; [reflexivity|];
    split; [reflexivity|].
  exact (proj1 (limit_is_converted_unvalidated
                  Samples.quiet Events Samples.limit_word fresh (QStr "abc")
                  eq_refl ltac:(discriminate) eq_refl)).
Defined.

(** ** The configuration loader *)

Lemma append_slash_nonempty (s : string) : (s ++ "/" =? "") = false.
Proof. destruct s; reflexivity. Qed.

Lemma normalize_nonempty (path : string) : (Path.normalize path =? "") = false.
Proof.
  unfold Path.normalize.
  destruct (path =? ""); [reflexivity|].
  destruct (Path.normalizeString path (negb (Path.starts_with_slash path)) =? "") eqn:E.
  - destruct (Path.starts_with_slash path); [reflexivity|].
    destruct (Path.ends_with_slash path); reflexivity.
  - destruct (Path.starts_with_slash path); [reflexivity|].
    destruct (Path.ends_with_slash path); [apply append_slash_nonempty | exact E].
Qed.

(** [path.join] never returns the empty string, so [filter(Boolean)] keeps
    each of its results. *)
Lemma join_nonempty (parts : list string) : (Path.join parts =? "") = false.
Proof.
  unfold Path.join.
  destruct (filter _ parts); [reflexivity | apply normalize_nonempty].
Qed.

(** After [filter(Boolean)] the array holds the override, if any, and then
    the four fixed paths. *)
Lemma named_is_override_then_well_known (h : Host) :
  named h = (Spec.override h ++ Spec.well_known h)%list.
Proof.
  unfold named, Spec.override, Spec.well_known.
  cbn [filter Boolean].
  rewrite join_nonempty; cbn [negb String.eqb Ascii.eqb Bool.eqb].
  destruct (env h "KUBECONFIG") as [s|]; cbn [Boolean]; [|reflexivity].
  destruct (s =? ""); reflexivity.
Qed.

(** Taking the head of a filtered list is finding the first element that
    passes. *)
Lemma head_of_filter {A B : Type} (f : A -> bool) (g : A -> B) (d : B) (l : list A) :
  match filter f l with x :: _ => g x | [] => d end
  = match find f l with Some x => g x | None => d end.
Proof.
  induction l as [|a l IH]; simpl; [reflexivity|].
  destruct (f a); [reflexivity | exact IH].
Qed.

(** C7, as stated, fails: the loader can fail.  Outside the cluster, with
    [KUBECONFIG] naming an existing file that the library cannot load, the
    file strategy is chosen and its failure is the loader's; the default
    discovery, which would have succeeded, is never tried. *)
Lemma loader_fails_when_chosen_file_does_not_load :
  Spec.precedence Samples.admin_host = Spec.FromFile "/etc/kubernetes/admin.conf"
  /\ loadFromDefault Samples.unreadable = Some "default"
  /\ loadKubeConfigRobust Samples.unreadable Samples.admin_host = None.
Proof. repeat split. Qed.

(** C7, amended. The loader carries out exactly the strategy the precedence
    names: in-cluster when the host marker is set to a non-empty value and
    both service-account files exist; otherwise the first existing file
    among the non-empty override followed by the well-known paths;
    otherwise the default.  Its result is the result of that one library
    call: a configuration when the call succeeds, the call's failure when it
    does not, with no fall-through to a later strategy. *)
Theorem loader_follows_precedence {K : Type} (kc : KubeConfigOps K) (h : Host) :
  loadKubeConfigRobust kc h = Spec.run kc (Spec.precedence h).
Proof.
  unfold loadKubeConfigRobust, Spec.precedence, inCluster.
  change (Path.join [saDir; "token"])
    with "/var/run/secrets/kubernetes.io/serviceaccount/token".
  change (Path.join [saDir; "ca.crt"])
    with "/var/run/secrets/kubernetes.io/serviceaccount/ca.crt".
  destruct (_ && _ && _); [reflexivity|].
  unfold candidates; rewrite named_is_override_then_well_known.
  rewrite (head_of_filter (existsSync h) (loadFromFile kc) (loadFromDefault kc)).
  destruct (find _ _); reflexivity.
Qed.

(** In-cluster is the strategy exactly when the marker is non-empty and both
    service-account files exist. *)
Lemma precedence_in_cluster_iff (h : Host) :
  Spec.precedence h = Spec.InCluster <->
  Boolean (env h "KUBERNETES_SERVICE_HOST") = true
  /\ existsSync h "/var/run/secrets/kubernetes.io/serviceaccount/token" = true
  /\ existsSync h "/var/run/secrets/kubernetes.io/serviceaccount/ca.crt" = true.
Proof.
  unfold Spec.precedence.
  destruct (Boolean _), (existsSync h _), (existsSync h _); simpl;
    (split; [intros H | intros (H1 & H2 & H3)]);
    try discriminate; try (repeat split; reflexivity);
    destruct (find _ _); discriminate.
Qed.

Example loader_inside_a_pod {K : Type} (kc : KubeConfigOps K) :
  loadKubeConfigRobust kc Samples.pod_host = loadFromCluster kc.
Proof. reflexivity. Qed.

Example loader_with_admin_file {K : Type} (kc : KubeConfigOps K) :
  loadKubeConfigRobust kc Samples.admin_host
  = loadFromFile kc "/etc/kubernetes/admin.conf".
Proof. reflexivity. Qed.

(** * Further properties *)

(** ** Numerals and [Number] *)

Lemma Qred_inject_Z (z : Z) : Qred (inject_Z z) = inject_Z z.
Proof.
  unfold Qred, inject_Z.
  pose proof (Z.ggcd_gcd z 1) as Hg.
  pose proof (Z.ggcd_correct_divisors z 1) as Hd.
  destruct (Z.ggcd z 1) as [g [aa bb]]; simpl in *.
  rewrite Z.gcd_1_r in Hg; subst g.
  destruct Hd as [Ha Hb].
  replace aa with z by lia; replace bb with 1%Z by lia; reflexivity.
Qed.

Lemma take_digits_uint (d : Decimal.uint) :
  take_digits 10 (DecimalString.NilEmpty.string_of_uint d) = (uint_digits d, "").
Proof.
  induction d;
    cbn [DecimalString.NilEmpty.string_of_uint take_digits uint_digits];
    try reflexivity;
    match goal with
    | |- context [digit_in 10 ?c] =>
        let v := eval vm_compute in (digit_in 10 c) in
        change (digit_in 10 c) with v
    end; cbv iota beta; rewrite IHd; reflexivity.
Qed.

Lemma fold_digits_acc (d : Decimal.uint) (acc : positive) :
  fold_left (fun a x => a * 10 + x)%N (uint_digits d) (N.pos acc)
  = N.pos (Pos.of_uint_acc d acc).
Proof.
  revert acc; induction d; intros acc;
    cbn [uint_digits fold_left Pos.of_uint_acc]; try reflexivity;
    rewrite <- IHd; f_equal; lia.
Qed.

Lemma fold_digits (d : Decimal.uint) :
  fold_left (fun a x => a * 10 + x)%N (uint_digits d) 0%N = N.of_uint d.
Proof.
  unfold N.of_uint.
  induction d; cbn [uint_digits fold_left Pos.of_uint]; try reflexivity;
    try exact IHd; apply fold_digits_acc.
Qed.

Lemma digits_value_uint (d : Decimal.uint) :
  digits_value 10 (uint_digits d) = Z.of_N (N.of_uint d).
Proof. unfold digits_value; now rewrite fold_digits. Qed.

Lemma trim_end_uint (d : Decimal.uint) :
  trim_end (DecimalString.NilEmpty.string_of_uint d)
  = DecimalString.NilEmpty.string_of_uint d.
Proof.
  induction d; cbn [DecimalString.NilEmpty.string_of_uint trim_end];
    try reflexivity; rewrite IHd;
    match goal with
    | |- context [is_space ?c] => change (is_space c) with false
    end; reflexivity.
Qed.

Lemma trim_uint (d : Decimal.uint) :
  trim (DecimalString.NilEmpty.string_of_uint d)
  = DecimalString.NilEmpty.string_of_uint d.
Proof.
  unfold trim.
  assert (H : trim_start (DecimalString.NilEmpty.string_of_uint d)
              = DecimalString.NilEmpty.string_of_uint d)
    by (destruct d; reflexivity).
  rewrite H; apply trim_end_uint.
Qed.

Lemma non_decimal_uint (d : Decimal.uint) :
  non_decimal (DecimalString.NilEmpty.string_of_uint d) = None.
Proof.
  destruct d as [|l|l|l|l|l|l|l|l|l|l]; try reflexivity; destruct l; reflexivity.
Qed.

Lemma ilog2_integer (p : positive) : ilog2 p 1 = Z.log2 (Z.pos p).
Proof.
  unfold ilog2; cbv zeta.
  change (Z.log2 1) with 0%Z; rewrite Z.sub_0_r.
  pose proof (Z.log2_nonneg (Z.pos p)) as H0.
  pose proof (Z.log2_spec (Z.pos p) ltac:(lia)) as [Hlo _].
  rewrite (Z.max_l 0 (- Z.log2 (Z.pos p))) by lia.
  rewrite (Z.max_r 0 (Z.log2 (Z.pos p))) by lia.
  rewrite Z.pow_0_r, Z.mul_1_r, Z.mul_1_l.
  destruct (Z.ltb_spec (Z.pos p) (2 ^ Z.log2 (Z.pos p))); [lia | reflexivity].
Qed.

Lemma round_half_even_1 (z : Z) : round_half_even z 1 = z.
Proof.
  unfold round_half_even; rewrite Z.div_1_r, Z.mod_1_r; reflexivity.
Qed.

(** A positive integer below [2^53] is a double. *)
Lemma nearest_pos_small (p : positive) :
  (Z.pos p < 2 ^ 53)%Z -> nearest_pos p 1 = Fin (inject_Z (Z.pos p)).
Proof.
  intros Hp.
  assert (HL : (Z.log2 (Z.pos p) < 53)%Z) by (apply Z.log2_lt_pow2; lia).
  pose proof (Z.log2_nonneg (Z.pos p)) as H0.
  unfold nearest_pos; rewrite ilog2_integer; cbv zeta.
  set (L := Z.log2 (Z.pos p)) in *.
  rewrite (Z.max_l (L - 52) (-1074)) by lia.
  rewrite (Z.max_r 0 (- (L - 52))) by lia.
  rewrite (Z.max_l 0 (L - 52)) by lia.
  rewrite Z.pow_0_r, Z.mul_1_l, round_half_even_1, Z.mul_1_r.
  assert (Hk : (0 < 2 ^ (- (L - 52)))%Z) by (apply Z.pow_pos_nonneg; lia).
  assert (Hno : ((0 <=? L - 52)
                 && (2 ^ 1024 <=? Z.pos p * 2 ^ (- (L - 52)) * 2 ^ (L - 52)))%Z = false).
  { destruct (Z.leb_spec 0 (L - 52)); [|reflexivity].
    replace (L - 52)%Z with 0%Z by lia.
    cbn [andb Z.opp]; rewrite Z.pow_0_r, !Z.mul_1_r.
    apply Z.leb_gt.
    assert (2 ^ 53 < 2 ^ 1024)%Z by (apply Z.pow_lt_mono_r; lia).
    lia. }
  rewrite Hno.
  f_equal.
  transitivity (Qred (inject_Z (Z.pos p))); [|apply Qred_inject_Z].
  apply Qred_complete.
  unfold Qeq, inject_Z; cbn [Qnum Qden].
  rewrite Z2Pos.id by exact Hk; lia.
Qed.

(** The naturals up to [2^53] are doubles: rounding leaves them alone. *)
Lemma nearest_natural (n : N) :
  (n <= 2 ^ 53)%N -> nearest (inject_Z (Z.of_N n)) = Fin (inject_Z (Z.of_N n)).
Proof.
  intros Hn; unfold nearest, inject_Z; cbn [Qnum Qden].
  destruct n as [|p]; [reflexivity|]; cbn [Z.of_N].
  destruct (Z.eq_dec (Z.pos p) (2 ^ 53)) as [E | E].
  - injection E as ->; vm_compute; reflexivity.
  - apply nearest_pos_small.
    assert (Z.of_N (N.pos p) <= Z.of_N (2 ^ 53))%Z by (apply N2Z.inj_le; exact Hn).
    change (Z.of_N (N.pos p)) with (Z.pos p) in *.
    change (Z.of_N (2 ^ 53)) with (2 ^ 53)%Z in *.
    lia.
Qed.

Lemma nearest_times_one (z : Z) :
  nearest (Qmult (inject_Z z) (inject_Z 1)) = nearest (inject_Z z).
Proof.
  unfold nearest, Qmult, inject_Z; cbn [Qnum Qden Pos.mul].
  now rewrite Z.mul_1_r.
Qed.

Lemma unsigned_decimal_uint (d : Decimal.uint) :
  d <> Decimal.Nil ->
  unsigned_decimal (DecimalString.NilEmpty.string_of_uint d)
  = Some (nearest (inject_Z (Z.of_N (N.of_uint d)))).
Proof.
  intros Hd; unfold unsigned_decimal.
  assert (Hinf : (DecimalString.NilEmpty.string_of_uint d =? "Infinity") = false)
    by (destruct d; reflexivity).
  rewrite Hinf, take_digits_uint, List.app_nil_r.
  destruct (uint_digits d) eqn:E; [destruct d; try discriminate E; contradiction|].
  rewrite <- E, digits_value_uint.
  cbn [exponent List.length Z.of_nat Z.sub Z.opp Z.add].
  change (pow10 0) with (inject_Z 1).
  now rewrite nearest_times_one.
Qed.

Lemma uint_string_nonempty (d : Decimal.uint) :
  d <> Decimal.Nil -> (DecimalString.NilEmpty.string_of_uint d =? "") = false.
Proof. destruct d; try reflexivity; contradiction. Qed.

Lemma StringToNumber_uint (d : Decimal.uint) :
  d <> Decimal.Nil ->
  StringToNumber (DecimalString.NilEmpty.string_of_uint d)
  = nearest (inject_Z (Z.of_N (N.of_uint d))).
Proof.
  intros Hd; unfold StringToNumber.
  rewrite trim_uint, (uint_string_nonempty d Hd), non_decimal_uint.
  pose proof (unsigned_decimal_uint d Hd) as Hu.
  destruct d; try contradiction;
    cbn [DecimalString.NilEmpty.string_of_uint] in *; rewrite Hu; reflexivity.
Qed.

Lemma to_uint_nonnil (n : N) : N.to_uint n <> Decimal.Nil.
Proof.
  destruct n; simpl; [discriminate|].
  apply DecimalPos.Unsigned.to_uint_nonnil.
Qed.

Lemma numeral_nonempty (n : N) : (numeral n =? "") = false.
Proof. apply uint_string_nonempty, to_uint_nonnil. Qed.

(** [Number] reads a decimal numeral as the double nearest to the number
    it denotes. *)
Lemma StringToNumber_numeral (n : N) :
  StringToNumber (numeral n) = nearest (inject_Z (Z.of_N n)).
Proof.
  unfold numeral; rewrite StringToNumber_uint by apply to_uint_nonnil.
  now rewrite DecimalN.Unsigned.of_to.
Qed.

(** A numeral with a minus sign in front reads as the negated double. *)
Lemma StringToNumber_minus_numeral (n : N) :
  StringToNumber (String "-" (numeral n)) = negate (nearest (inject_Z (Z.of_N n))).
Proof.
  unfold StringToNumber, trim, numeral.
  cbn [trim_start]; change (is_space "-") with false; cbv iota.
  cbn [trim_end]; rewrite trim_end_uint.
  change (is_space "-") with false; cbn [andb].
  cbn [String.eqb non_decimal].
  change (Ascii.eqb "-" "0") with false; cbv iota.
  rewrite (unsigned_decimal_uint _ (to_uint_nonnil n)).
  cbn [option_map]; now rewrite DecimalN.Unsigned.of_to.
Qed.

Lemma negate_natural (n : N) :
  negate (Fin (inject_Z (Z.of_N n)))
  = if (n =? 0)%N then NegZero else Fin (inject_Z (- Z.of_N n)).
Proof.
  unfold negate; cbn [inject_Z Qnum].
  destruct n as [|p]; [reflexivity|].
  exact (f_equal Fin (Qred_inject_Z (Z.neg p))).
Qed.

(** The limit of the parameters when the conversion of a present, non-empty
    limit returns. *)
Lemma limit_converted (req : Request) (q : qvalue) (n : number) :
  query_lookup "limit" (query req) = Some q -> q <> QStr "" ->
  Number q = Normal n ->
  exists p, parseListParams req = Normal p /\ limit p = VNum n.
Proof.
  intros Hq Hne Hn.
  rewrite parseListParams_of_limit, (limit_of_query req q Hq Hne), Hn.
  eexists; split; reflexivity.
Qed.

Lemma trim_start_blank (s : string) : blank s = true -> trim_start s = "".
Proof.
  induction s as [|c r IH]; simpl; [reflexivity|].
  destruct (is_space c); simpl; [exact IH | discriminate].
Qed.

Lemma query_string_nonempty (s : string) : (s =? "") = false -> QStr s <> QStr "".
Proof. intros H E; injection E as ->; discriminate H. Qed.

(** ** The limit parameter, continued *)

(** X1. A limit written as a decimal numeral always converts: the limit
    of the parameters is the double nearest to the number it denotes, which
    is that number itself up to [2^53] ([limit=0] included: the string
    ["0"] is truthy). *)
Theorem limit_numeral_is_its_number (req : Request) (n : N) :
  query_lookup "limit" (query req) = Some (QStr (numeral n)) ->
  exists p, parseListParams req = Normal p
            /\ limit p = VNum (nearest (inject_Z (Z.of_N n)))
            /\ ((n <= 2 ^ 53)%N -> limit p = VNum (Fin (inject_Z (Z.of_N n)))).
Proof.
  intros Hq.
  destruct (limit_converted req _ (nearest (inject_Z (Z.of_N n))) Hq
              (query_string_nonempty _ (numeral_nonempty n)))
    as (p & Hp & Hl).
  { unfold Number; cbn [ToString]; now rewrite StringToNumber_numeral. }
  exists p; split; [exact Hp|]; split; [exact Hl|].
  intros Hn; now rewrite Hl, (nearest_natural n Hn).
Qed.

Lemma limit_numeral_is_its_number_witness :
  query_lookup "limit" (query Cases.limit_two) = Some (QStr (numeral 2%N))
  /\ (2 <= 2 ^ 53)%N
  /\ exists p, parseListParams Cases.limit_two = Normal p /\ limit p = VNum (Fin 2).
Proof.
  split; [reflexivity|]; split; [discriminate|].
  destruct (limit_numeral_is_its_number Cases.limit_two 2%N eq_refl)
    as (p & Hp & _ & Hsmall).
  exists p; split; [exact Hp|].
  apply Hsmall; discriminate.
Defined.

(** X2. A limit made of white space only is not taken as missing: it is
    truthy, converts to 0, and 0 is the limit handed on. *)
Theorem limit_blank_is_zero (req : Request) (s : string) :
  query_lookup "limit" (query req) = Some (QStr s) ->
  s <> "" ->
  blank s = true ->
  exists p, parseListParams req = Normal p /\ limit p = VNum (Fin 0).
Proof.
  intros Hq Hs Hb.
  assert (Hne : QStr s <> QStr "") by (intros E; injection E as ->; contradiction).
  apply (limit_converted req _ _ Hq Hne).
  unfold Number, StringToNumber, trim; cbn [ToString].
  now rewrite (trim_start_blank s Hb).
Qed.

Lemma limit_blank_is_zero_witness :
  query_lookup "limit" (query Cases.limit_blank) = Some (QStr "  ")
  /\ "  " <> ""
  /\ blank "  " = true
  /\ exists p, parseListParams Cases.limit_blank = Normal p /\ limit p = VNum (Fin 0).
Proof.
  split; [reflexivity|]; split; [discriminate|]; split; [reflexivity|].
  apply (limit_blank_is_zero Cases.limit_blank "  ");
    [reflexivity | discriminate | reflexivity].
Defined.

(** X3. A negative limit is not rejected either: a numeral with a minus sign
    converts to the negated double, which up to [2^53] is the negated number
    itself ([-0] for zero). *)
Theorem limit_negative_is_passed_on (req : Request) (n : N) :
  query_lookup "limit" (query req) = Some (QStr (String "-" (numeral n))) ->
  exists p, parseListParams req = Normal p
            /\ limit p = VNum (negate (nearest (inject_Z (Z.of_N n))))
            /\ ((n <= 2 ^ 53)%N ->
                limit p = VNum (if (n =? 0)%N then NegZero
                                else Fin (inject_Z (- Z.of_N n)))).
Proof.
  intros Hq.
  assert (Hne : QStr (String "-" (numeral n)) <> QStr "") by discriminate.
  destruct (limit_converted req _ (negate (nearest (inject_Z (Z.of_N n)))) Hq Hne)
    as (p & Hp & Hl).
  { unfold Number; cbn [ToString]; now rewrite StringToNumber_minus_numeral. }
  exists p; split; [exact Hp|]; split; [exact Hl|].
  intros Hn; now rewrite Hl, (nearest_natural n Hn), negate_natural.
Qed.

Lemma limit_negative_is_passed_on_witness :
  query_lookup "limit" (query Cases.limit_minus_five)
  = Some (QStr (String "-" (numeral 5%N)))
  /\ (5 <= 2 ^ 53)%N
  /\ exists p, parseListParams Cases.limit_minus_five = Normal p
               /\ limit p = VNum (Fin (-5 # 1)).
Proof.
  split; [reflexivity|]; split; [discriminate|].
  destruct (limit_negative_is_passed_on Cases.limit_minus_five 5%N eq_refl)
    as (p & Hp & _ & Hsmall).
  exists p; split; [exact Hp|].
  apply Hsmall; discriminate.
Defined.

Lemma Number_singleton (q : qvalue) : Number (QArr [q]) = Number q.
Proof.
  unfold Number; cbn [ToString fold_right].
  destruct (ToString q); reflexivity.
Qed.

(** X4. A limit that arrives in a one-element array converts as its element
    does.  A limit that arrives as a nested object converts to [NaN], unless
    the object has a property of its own called [toString]: then the
    conversion throws, the normalisation throws, and every list route
    answers through [sendError] without calling anything. *)
Theorem limit_of_structured_values (req : Request) :
  (forall q n, query_lookup "limit" (query req) = Some (QArr [q]) ->
               Number q = Normal n ->
               exists p, parseListParams req = Normal p /\ limit p = VNum n) /\
  (forall props, query_lookup "limit" (query req) = Some (QObj props) ->
                 has_own "toString" props = false ->
                 exists p, parseListParams req = Normal p /\ limit p = VNum NaN) /\
  (forall props, query_lookup "limit" (query req) = Some (QObj props) ->
                 has_own "toString" props = true ->
                 parseListParams req = Throw cannot_convert
                 /\ forall up r res, lists r = true ->
                      handle up r req res = ([], sendError res cannot_convert)).
Proof.
  split; [|split].
  - intros q n Hq Hn.
    apply (limit_converted req _ _ Hq); [discriminate|].
    now rewrite Number_singleton.
  - intros props Hq Hown.
    apply (limit_converted req _ _ Hq); [discriminate|].
    unfold Number; cbn [ToString]; now rewrite Hown.
  - intros props Hq Hown.
    assert (Hp : parseListParams req = Throw cannot_convert).
    { rewrite parseListParams_of_limit, (limit_of_query req _ Hq) by discriminate.
      unfold Number; cbn [ToString]; now rewrite Hown. }
    split; [exact Hp|].
    intros up r res Hr; exact (handle_throws up r req res _ Hr Hp).
Qed.

Lemma limit_of_structured_values_witness :
  (query_lookup "limit" (query Cases.limit_in_array) = Some (QArr [QStr "5"])
   /\ Number (QStr "5") = Normal (Fin 5)
   /\ exists p, parseListParams Cases.limit_in_array = Normal p
                /\ limit p = VNum (Fin 5))
  /\ (query_lookup "limit" (query Cases.limit_in_object)
      = Some (QObj [("gt", QStr "5")])
      /\ has_own "toString" [("gt", QStr "5")] = false
      /\ exists p, parseListParams Cases.limit_in_object = Normal p
                   /\ limit p = VNum NaN)
  /\ (query_lookup "limit" (query Cases.limit_hides_toString)
      = Some (QObj [("toString", QStr "1")])
      /\ has_own "toString" [("toString", QStr "1")] = true
      /\ handle Samples.quiet Pods Cases.limit_hides_toString fresh
         = ([], sendError fresh cannot_convert)).
Proof.
  split; [|split]; (split; [reflexivity|]; split; [vm_compute; reflexivity|]).
  - exact (proj1 (limit_of_structured_values Cases.limit_in_array)
                 (QStr "5") (Fin 5) eq_refl ltac:(vm_compute; reflexivity)).
  - exact (proj1 (proj2 (limit_of_structured_values Cases.limit_in_object))
                 [("gt", QStr "5")] eq_refl eq_refl).
  - exact (proj2 (proj2 (proj2 (limit_of_structured_values Cases.limit_hides_toString))
                        [("toString", QStr "1")] eq_refl eq_refl)
                 Samples.quiet Pods fresh eq_refl).
Defined.

(** ** The listening port *)

(** X5. The port is 8000 when [PORT] is unset or empty; when [PORT] is a
    decimal numeral it is the double nearest to the number denoted, which
    up to [2^53] is that number itself. *)
Theorem PORT_default_and_numeral (h : Host) :
  (env h "PORT" = None \/ env h "PORT" = Some "" -> PORT h = Fin 8000) /\
  (forall n, env h "PORT" = Some (numeral n) ->
             PORT h = nearest (inject_Z (Z.of_N n))
             /\ ((n <= 2 ^ 53)%N -> PORT h = Fin (inject_Z (Z.of_N n)))).
Proof.
  unfold PORT; split.
  - intros [-> | ->]; reflexivity.
  - intros n ->; rewrite numeral_nonempty, StringToNumber_numeral.
    split; [reflexivity | apply nearest_natural].
Qed.

Lemma PORT_default_and_numeral_witness :
  (env Samples.pod_host "PORT" = None /\ PORT Samples.pod_host = Fin 8000)
  /\ (env Cases.managed "PORT" = Some (numeral 8000%N)
      /\ (8000 <= 2 ^ 53)%N
      /\ PORT Cases.managed = Fin 8000).
Proof.
  split; [split; [reflexivity|] | split; [reflexivity | split; [discriminate|]]].
  - apply (proj1 (PORT_default_and_numeral Samples.pod_host)); now left.
  - apply (proj2 (PORT_default_and_numeral Cases.managed) 8000%N eq_refl); discriminate.
Defined.

(** ** The routes, continued *)

(** When the query normalises, a list route is one [relay] of one call,
    namespaced with a truthy namespace in front of the common arguments, or
    not namespaced with the common arguments alone. *)
Lemma handle_is_relay (up : upstream) (r : route) (req : Request) (res : Response)
    (p : ListParams) :
  lists r = true ->
  parseListParams req = Normal p ->
  exists c,
    handle up r req res = relay up c res
    /\ ((namespaced (meth c) = true
         /\ truthy (namespace p) = true
         /\ args c = namespace p :: list_args p)
        \/ (namespaced (meth c) = false /\ args c = list_args p)).
Proof.
  intros Hr Hp.
  destruct r; try discriminate Hr; cbn [handle]; unfold with_params; rewrite Hp;
    try destruct (truthy (namespace p)) eqn:Hns;
    eexists; (split; [reflexivity|]); cbn [meth args namespaced];
    first [ left; repeat split; reflexivity | right; split; reflexivity ].
Qed.

Lemma parseListParams_ext (req req' : Request) :
  (forall k, In k known_keys ->
             query_lookup k (query req) = query_lookup k (query req')) ->
  parseListParams req = parseListParams req'.
Proof.
  intros H; unfold parseListParams, parse_limit, query_get.
  rewrite (H "namespace"), (H "labelSelector"), (H "fieldSelector"),
    (H "limit"), (H "continue"), (H "resourceVersion");
    try reflexivity; unfold known_keys; simpl; tauto.
Qed.

(** X6. Query parameters other than the six known keys have no effect: two
    requests that agree on those keys get the same call and the same
    response from every route. *)
Theorem unknown_parameters_are_ignored
    (up : upstream) (r : route) (req req' : Request) (res : Response) :
  (forall k, In k known_keys ->
             query_lookup k (query req) = query_lookup k (query req')) ->
  handle up r req res = handle up r req' res.
Proof.
  intros H; pose proof (parseListParams_ext req req' H) as Hp.
  destruct r; cbn [handle]; unfold with_params; rewrite ?Hp; reflexivity.
Qed.

Lemma unknown_parameters_are_ignored_witness :
  (forall k, In k known_keys ->
             query_lookup k (query Cases.labelled)
             = query_lookup k (query Cases.labelled_and_traced))
  /\ handle Samples.quiet Pods Cases.labelled fresh
     = handle Samples.quiet Pods Cases.labelled_and_traced fresh.
Proof.
  assert (H : forall k, In k known_keys ->
                        query_lookup k (query Cases.labelled)
                        = query_lookup k (query Cases.labelled_and_traced)).
  { intros k Hk; unfold known_keys in Hk; simpl in Hk.
    repeat (destruct Hk as [<- | Hk]; [reflexivity|]); contradiction. }
  split; [exact H|].
  apply (unknown_parameters_are_ignored
           Samples.quiet Pods Cases.labelled Cases.labelled_and_traced fresh H).
Defined.



Lemma slot_of_args (p : ListParams) (ns : value) (i : nat) (l : list value) :
  (i <= 4)%nat ->
  l = ns :: list_args p \/ l = list_args p ->
  nth_error (rev l) i = nth_error (rev (list_args p)) i.
Proof.
  intros Hi [-> | ->]; [|reflexivity].
  cbn [list_args rev app].
  do 5 (destruct i as [|i]; [reflexivity|]); exfalso; lia.
Qed.

(** X8. The continue token, the two selectors and the resource version are
    handed on as they come, with no validation.  Whenever the query
    normalises, the one call of a list route has, at the place where the
    source writes [p._continue], [p.fieldSelector], [p.labelSelector] and
    [p.resourceVersion] (the fifth, fourth, third and first argument from
    the end), the value of the parameter if it is present and not empty,
    whatever its shape, and [undefined] if it is absent or empty. *)
Theorem opaque_parameters_pass_verbatim
    (up : upstream) (r : route) (req : Request) (res : Response)
    (p : ListParams) (k : string) (i : nat) :
  In (k, i) opaque_slots ->
  lists r = true ->
  parseListParams req = Normal p ->
  exists c, fst (handle up r req res) = [c] /\
    (forall q, query_lookup k (query req) = Some q -> q <> QStr "" ->
               nth_error (rev (args c)) i = Some (to_value q)) /\
    (query_lookup k (query req) = None \/ query_lookup k (query req) = Some (QStr "") ->
     nth_error (rev (args c)) i = Some VUndefined).
Proof.
  intros Hk Hr Hp.
  destruct (handle_is_relay up r req res p Hr Hp) as (c & Hc & Hshape).
  exists c; rewrite Hc, relay_calls; split; [reflexivity|].
  assert (Hargs : args c = namespace p :: list_args p \/ args c = list_args p)
    by (destruct Hshape as [(_ & _ & Ha) | (_ & Ha)]; [left | right]; exact Ha).
  destruct (parseListParams_normal req p Hp) as (_ & _ & Hl & Hf & Hc' & Hv).
  unfold opaque_slots in Hk; simpl in Hk.
  destruct Hk as [Hk | [Hk | [Hk | [Hk | []]]]]; injection Hk as <- <-;
    rewrite slot_of_args with (p := p) (ns := namespace p) by (lia || exact Hargs);
    cbn [list_args rev app nth_error];
    rewrite ?Hl, ?Hf, ?Hc', ?Hv; unfold query_get;
    (split;
     [ intros q -> Hq; now rewrite (or_else_truthy _ _ (query_value_truthy q Hq))
     | intros [-> | ->]; reflexivity ]).
Qed.

Lemma opaque_parameters_pass_verbatim_witness :
  In ("labelSelector", 2%nat) opaque_slots
  /\ lists Services = true
  /\ query_lookup "labelSelector" (query Cases.labelled) = Some (QStr "app=web")
  /\ (exists p, parseListParams Cases.labelled = Normal p)
  /\ exists c, fst (handle Samples.quiet Services Cases.labelled fresh) = [c]
               /\ nth_error (rev (args c)) 2 = Some (VStr "app=web").
Proof.
  assert (Hin : In ("labelSelector", 2%nat) opaque_slots)
    by (unfold opaque_slots; simpl; tauto).
  split; [exact Hin|]; split; [reflexivity|]; split; [reflexivity|].
  destruct (limit_converted Cases.labelled (QStr "2") (Fin 2) eq_refl
              ltac:(discriminate) ltac:(vm_compute; reflexivity)) as (p & Hp & _).
  split; [exists p; exact Hp|].
  destruct (opaque_parameters_pass_verbatim
              Samples.quiet Services Cases.labelled fresh p "labelSelector" 2
              Hin eq_refl Hp)
    as (c & Hc & Hpresent & _).
  exists c; split; [exact Hc|].
  apply (Hpresent (QStr "app=web")); [reflexivity | discriminate].
Defined.

(** X9. A list route makes at most one call.  When the query normalises it
    makes exactly one, and answers with what that call settles to:
    [sendList] of the response it resolves with, or [sendError] of the error
    it rejects with.  When the normalisation throws it makes none, and
    answers with [sendError] of what was thrown. *)
Theorem route_answers_with_the_outcome
    (up : upstream) (r : route) (req : Request) (res : Response) :
  lists r = true ->
  match parseListParams req with
  | Normal _ =>
      exists c,
        fst (handle up r req res) = [c] /\
        snd (handle up r req res)
        = match up c with
          | Resolved apiResp => sendList res apiResp
          | Rejected err => sendError res err
          end
  | Throw e => handle up r req res = ([], sendError res e)
  end.
Proof.
  intros Hr.
  destruct (parseListParams req) as [p | e] eqn:Hp;
    [|exact (handle_throws up r req res e Hr Hp)].
  destruct (handle_is_relay up r req res p Hr Hp) as (c & Hc & _).
  exists c; rewrite Hc; unfold relay; destruct (up c); split; reflexivity.
Qed.

Lemma route_answers_with_the_outcome_witness :
  lists Ingresses = true
  /\ (exists c,
        fst (handle Cases.down Ingresses Samples.no_namespace fresh) = [c]
        /\ snd (handle Cases.down Ingresses Samples.no_namespace fresh)
           = match Cases.down c with
             | Resolved apiResp => sendList fresh apiResp
             | Rejected err => sendError fresh err
             end)
  /\ handle Cases.down Ingresses Cases.limit_hides_toString fresh
     = ([], sendError fresh cannot_convert).
Proof.
  split; [reflexivity|]; split.
  - exact (route_answers_with_the_outcome
             Cases.down Ingresses Samples.no_namespace fresh eq_refl).
  - exact (route_answers_with_the_outcome
             Cases.down Ingresses Cases.limit_hides_toString fresh eq_refl).
Defined.

(** X10. Success and failure can be told apart: after any request to a
    list route, either the status is still 200 and the payload has [items]
    and no [error], or the payload has [error] set to ["K8S_API_ERROR"] and
    no [items], with a truthy status. *)
Theorem list_response_is_envelope_or_error
    (up : upstream) (r : route) (req : Request) :
  lists r = true ->
  let res := snd (handle up r req fresh) in
  (statusCode res = VNum (of_nat 200)
   /\ truthy (get (payload res) "items") = true
   /\ get (payload res) "error" = VUndefined)
  \/
  (truthy (statusCode res) = true
   /\ get (payload res) "error" = VStr "K8S_API_ERROR"
   /\ get (payload res) "items" = VUndefined).
Proof.
  intros Hr.
  assert (Herror : forall e,
            truthy (statusCode (sendError fresh e)) = true
            /\ get (payload (sendError fresh e)) "error" = VStr "K8S_API_ERROR"
            /\ get (payload (sendError fresh e)) "items" = VUndefined).
  { intros e; unfold_responders; repeat split.
    unfold or_else.
    destruct (truthy (opt_get (opt_get e "response") "statusCode")) eqn:E;
      [exact E | reflexivity]. }
  cbv zeta.
  destruct (parseListParams req) as [p | e] eqn:Hp.
  - destruct (handle_is_relay up r req fresh p Hr Hp) as (c & Hc & _).
    rewrite Hc; unfold relay; destruct (up c) as [a | e]; [left | right; apply Herror].
    unfold_responders; repeat split.
    unfold or_else at 1.
    destruct (truthy (get (or_else (body a) (VObj [])) "items")) eqn:E;
      [exact E | reflexivity].
  - rewrite (handle_throws up r req fresh e Hr Hp); right; apply Herror.
Qed.

Lemma list_response_is_envelope_or_error_witness :
  lists Events = true
  /\ truthy (statusCode (snd (handle Cases.down Events Samples.no_namespace fresh))) = true
  /\ get (payload (snd (handle Cases.down Events Samples.no_namespace fresh))) "error"
     = VStr "K8S_API_ERROR".
Proof.
  split; [reflexivity|].
  destruct (list_response_is_envelope_or_error
              Cases.down Events Samples.no_namespace eq_refl)
    as [(_ & _ & Herr) | (Hs & Herr & _)].
  - discriminate Herr.
  - split; assumption.
Defined.

(** X11. A namespaced method is never called with an empty or missing
    namespace: in every call a route makes, a namespaced method has eight
    arguments, the first a truthy namespace, and any other method has
    seven. *)
Theorem namespaced_calls_carry_a_namespace
    (up : upstream) (r : route) (req : Request) (res : Response) (c : call) :
  In c (fst (handle up r req res)) ->
  if namespaced (meth c)
  then exists ns rest, args c = ns :: rest /\ truthy ns = true
                       /\ query_get req "namespace" = ns
                       /\ List.length rest = 7%nat
  else List.length (args c) = 7%nat.
Proof.
  intros Hin.
  assert (Hr : lists r = true) by (destruct r; [destruct Hin | reflexivity..]).
  destruct (parseListParams req) as [p | e] eqn:Hp;
    [|rewrite (handle_throws up r req res e Hr Hp) in Hin; destruct Hin].
  destruct (handle_is_relay up r req res p Hr Hp) as (c' & Hc & Hshape).
  rewrite Hc, relay_calls in Hin; destruct Hin as [<- | []].
  destruct (parseListParams_normal req p Hp) as (_ & Hnamespace & _).
  destruct Hshape as [(Hm & Hns & Ha) | (Hm & Ha)]; rewrite Hm, Ha.
  - exists (namespace p), (list_args p); repeat split; try assumption.
    rewrite Hnamespace in Hns |- *; unfold or_else in Hns |- *.
    destruct (truthy (query_get req "namespace")); [reflexivity | discriminate Hns].
  - reflexivity.
Qed.

Lemma namespaced_calls_carry_a_namespace_witness :
  In {| on := core; meth := listNamespacedPod;
        args := [ VStr "kube-system"; VUndefined; VUndefined; VUndefined;
                  VUndefined; VUndefined; VUndefined; VUndefined ] |}
     (fst (handle Samples.quiet Pods Samples.in_kube_system fresh))
  /\ exists ns rest,
       [ VStr "kube-system"; VUndefined; VUndefined; VUndefined;
         VUndefined; VUndefined; VUndefined; VUndefined ] = ns :: rest
       /\ truthy ns = true
       /\ query_get Samples.in_kube_system "namespace" = ns
       /\ List.length rest = 7%nat.
Proof.
  assert (Hin : In {| on := core; meth := listNamespacedPod;
                      args := [ VStr "kube-system"; VUndefined; VUndefined; VUndefined;
                                VUndefined; VUndefined; VUndefined; VUndefined ] |}
                   (fst (handle Samples.quiet Pods Samples.in_kube_system fresh)))
    by (left; reflexivity).
  split; [exact Hin|].
  exact (namespaced_calls_carry_a_namespace
           Samples.quiet Pods Samples.in_kube_system fresh _ Hin).
Defined.

(** ** The responders, continued *)

Lemma or_else_default_truthy (a b : value) :
  truthy b = true -> truthy (or_else a b) = true.
Proof. intros Hb; unfold or_else; destruct (truthy a) eqn:E; assumption. Qed.

(** X12. The envelope of [sendList] always has its four fields in the same
    order; [continue] and [resourceVersion] are never [undefined] (so they
    are never dropped from the JSON), and [items] is never falsy. *)
Theorem sendList_envelope_shape (res : Response) (apiResp : ApiResponse) :
  exists count token version items,
    sent (sendList res apiResp)
    = Some (VObj [ ("count", count); ("continue", token);
                   ("resourceVersion", version); ("items", items) ])
    /\ token <> VUndefined
    /\ version <> VUndefined
    /\ truthy items = true
    /\ statusCode (sendList res apiResp) = statusCode res.
Proof.
  unfold sendList, res_json; cbn [sent statusCode].
  do 4 eexists; split; [reflexivity|].
  repeat split.
  - unfold or_else; destruct (truthy _) eqn:E; [|discriminate].
    intros Hu; rewrite Hu in E; discriminate E.
  - unfold or_else; destruct (truthy _) eqn:E; [|discriminate].
    intros Hu; rewrite Hu in E; discriminate E.
  - now apply or_else_default_truthy.
Qed.

(** A response whose body is missing (or falsy in any way) is answered
    with the empty page: count 0, no token, no version, no items. *)
Lemma sendList_without_body (res : Response) (apiResp : ApiResponse) :
  truthy (body apiResp) = false ->
  sendList res apiResp
  = res_json res (VObj [ ("count", VNum (of_nat 0)); ("continue", VNull);
                         ("resourceVersion", VNull); ("items", VArr []) ]).
Proof.
  intros Hb; unfold sendList; now rewrite (or_else_falsy _ _ Hb).
Qed.

Example sendList_of_no_body :
  sendList fresh Cases.no_body
  = res_json fresh (VObj [ ("count", VNum (of_nat 0)); ("continue", VNull);
                           ("resourceVersion", VNull); ("items", VArr []) ]).
Proof. apply sendList_without_body; reflexivity. Qed.

(** X14. Whatever is thrown, the error response has a truthy status and
    truthy [details]: the details are the embedded body, or an object with
    one [message] that is a truthy value. *)
Theorem sendError_never_sends_empty_fields (res : Response) (err : value) :
  let r := sendError res err in
  truthy (statusCode r) = true
  /\ truthy (get (payload r) "details") = true
  /\ (get (payload r) "details" = opt_get (opt_get err "response") "body"
      \/ exists m, get (payload r) "details" = VObj [("message", m)]
                   /\ truthy m = true).
Proof.
  unfold_responders; repeat split.
  - now apply or_else_default_truthy.
  - now apply or_else_default_truthy.
  - destruct (truthy (opt_get (opt_get err "response") "body")) eqn:E.
    + left; now rewrite (or_else_truthy _ _ E).
    + right; rewrite (or_else_falsy _ _ E).
      eexists; split; [reflexivity|]; now apply or_else_default_truthy.
Qed.

(** X15. The status and the details are taken independently of each
    other: an embedded status without a body is relayed with the error's
    own message as details, and an embedded body without a status code is
    relayed under status 500. *)
Theorem sendError_fields_are_independent (res : Response) (err : value) :
  let sc := opt_get (opt_get err "response") "statusCode" in
  let b := opt_get (opt_get err "response") "body" in
  let r := sendError res err in
  (truthy sc = true -> truthy b = false ->
   statusCode r = sc
   /\ get (payload r) "details"
      = VObj [("message", or_else (opt_get err "message") (VStr "Unknown error"))])
  /\
  (truthy sc = false -> truthy b = true ->
   statusCode r = VNum (of_nat 500) /\ get (payload r) "details" = b).
Proof.
  unfold_responders; split; intros Hsc Hb.
  - now rewrite (or_else_truthy _ _ Hsc), (or_else_falsy _ _ Hb).
  - now rewrite (or_else_falsy _ _ Hsc), (or_else_truthy _ _ Hb).
Qed.

Lemma sendError_fields_are_independent_witness :
  (truthy (opt_get (opt_get Cases.bad_gateway "response") "statusCode") = true
   /\ truthy (opt_get (opt_get Cases.bad_gateway "response") "body") = false
   /\ statusCode (sendError fresh Cases.bad_gateway) = VNum (of_nat 502)
   /\ get (payload (sendError fresh Cases.bad_gateway)) "details"
      = VObj [("message", VStr "HTTP request failed")])
  /\
  (truthy (opt_get (opt_get Cases.body_only "response") "statusCode") = false
   /\ truthy (opt_get (opt_get Cases.body_only "response") "body") = true
   /\ statusCode (sendError fresh Cases.body_only) = VNum (of_nat 500)
   /\ get (payload (sendError fresh Cases.body_only)) "details"
      = VStr "upstream closed the connection").
Proof.
  split; (split; [reflexivity|]; split; [reflexivity|]).
  - apply (proj1 (sendError_fields_are_independent fresh Cases.bad_gateway));
      reflexivity.
  - apply (proj2 (sendError_fields_are_independent fresh Cases.body_only));
      reflexivity.
Defined.

(** ** The configuration loader, continued *)

Lemma filter_head {A : Type} (f : A -> bool) (l : list A) (x : A) (rest : list A) :
  filter f l = x :: rest -> In x l /\ f x = true.
Proof.
  intros E; apply filter_In; rewrite E; now left.
Qed.

Lemma filter_nil {A : Type} (f : A -> bool) (l : list A) :
  filter f l = [] -> forall x, In x l -> f x = false.
Proof.
  intros E x Hx; destruct (f x) eqn:Hf; [|reflexivity].
  assert (Hin : In x (filter f l)) by (apply filter_In; split; assumption).
  rewrite E in Hin; destruct Hin.
Qed.

Lemma named_members (h : Host) (p : string) :
  In p (named h) -> env h "KUBECONFIG" = Some p \/ In p (Spec.well_known h).
Proof.
  rewrite named_is_override_then_well_known; intros Hin.
  apply in_app_or in Hin; destruct Hin as [Hin | Hin]; [left | now right].
  unfold Spec.override in Hin.
  destruct (env h "KUBECONFIG") as [s|]; [|destruct Hin].
  destruct (s =? ""); simpl in Hin;
    [destruct Hin | destruct Hin as [<- | []]; reflexivity].
Qed.

(** X16. Outside a cluster the loader loads a file only if it exists and
    is either the [KUBECONFIG] override or one of the four well-known
    paths; it turns to default discovery only when none of them exists. *)
Theorem loader_loads_only_existing_named_files
    {K : Type} (kc : KubeConfigOps K) (h : Host) :
  inCluster h = false ->
  (exists p, (env h "KUBECONFIG" = Some p \/ In p (Spec.well_known h))
             /\ existsSync h p = true
             /\ loadKubeConfigRobust kc h = loadFromFile kc p)
  \/
  ((forall p, In p (named h) -> existsSync h p = false)
   /\ loadKubeConfigRobust kc h = loadFromDefault kc).
Proof.
  intros Hout; unfold loadKubeConfigRobust, candidates; rewrite Hout.
  destruct (filter (existsSync h) (named h)) as [|p rest] eqn:E.
  - right; split; [exact (filter_nil _ _ E) | reflexivity].
  - left; exists p.
    destruct (filter_head _ _ _ _ E) as [Hin Hex].
    split; [exact (named_members h p Hin) | split; [exact Hex | reflexivity]].
Qed.

Lemma loader_loads_only_existing_named_files_witness :
  inCluster Cases.workstation = false
  /\ existsSync Cases.workstation "/home/kube/.kube/config" = true
  /\ loadKubeConfigRobust Cases.recording Cases.workstation
     = Some (Spec.FromFile "/home/kube/.kube/config").
Proof.
  split; [reflexivity|]; split; [reflexivity|].
  destruct (loader_loads_only_existing_named_files
              Cases.recording Cases.workstation eq_refl)
    as [(p & _ & _ & Hload) | (Hnone & _)].
  - rewrite Hload.
    assert (Hp : loadKubeConfigRobust Cases.recording Cases.workstation
                 = Some (Spec.FromFile "/home/kube/.kube/config")) by reflexivity.
    rewrite Hload in Hp; exact Hp.
  - assert (Hin : In "/home/kube/.kube/config" (named Cases.workstation))
      by (right; left; reflexivity).
    discriminate (Hnone _ Hin).
Defined.

(** X17. Outside a cluster, an existing [KUBECONFIG] file wins over every
    well-known path, whichever of those exist. *)
Theorem loader_override_wins {K : Type} (kc : KubeConfigOps K) (h : Host) (p : string) :
  inCluster h = false ->
  env h "KUBECONFIG" = Some p ->
  p <> "" ->
  existsSync h p = true ->
  loadKubeConfigRobust kc h = loadFromFile kc p.
Proof.
  intros Hout Henv Hp Hex.
  unfold loadKubeConfigRobust, candidates; rewrite Hout.
  rewrite named_is_override_then_well_known; unfold Spec.override; rewrite Henv.
  destruct (p =? "") eqn:E; [apply String.eqb_eq in E; contradiction|].
  cbn [app filter]; now rewrite Hex.
Qed.

Lemma loader_override_wins_witness :
  inCluster Samples.admin_host = false
  /\ env Samples.admin_host "KUBECONFIG" = Some "/etc/kubernetes/admin.conf"
  /\ existsSync Samples.admin_host "/etc/kubernetes/admin.conf" = true
  /\ loadKubeConfigRobust Cases.recording Samples.admin_host
     = Some (Spec.FromFile "/etc/kubernetes/admin.conf").
Proof.
  repeat (split; [reflexivity|]).
  apply (loader_override_wins Cases.recording Samples.admin_host
           "/etc/kubernetes/admin.conf");
    [reflexivity | reflexivity | discriminate | reflexivity].
Defined.

(** X18. The cluster marker alone is not enough: when the marker is unset
    or empty, or either service-account file is missing, the in-cluster
    loader is not called; the result is the same whatever that loader would
    have done. *)
Theorem loader_needs_service_account_files
    {K : Type} (kc : KubeConfigOps K) (h : Host) (x : option K) :
  Boolean (env h "KUBERNETES_SERVICE_HOST") = false
  \/ existsSync h "/var/run/secrets/kubernetes.io/serviceaccount/token" = false
  \/ existsSync h "/var/run/secrets/kubernetes.io/serviceaccount/ca.crt" = false ->
  loadKubeConfigRobust (with_loadFromCluster kc x) h = loadKubeConfigRobust kc h.
Proof.
  intros Hmissing.
  assert (Hout : inCluster h = false).
  { unfold inCluster.
    change (Path.join [saDir; "token"])
      with "/var/run/secrets/kubernetes.io/serviceaccount/token".
    change (Path.join [saDir; "ca.crt"])
      with "/var/run/secrets/kubernetes.io/serviceaccount/ca.crt".
    destruct Hmissing as [-> | [-> | ->]];
      [reflexivity | now rewrite andb_false_r | now rewrite andb_false_r]. }
  unfold loadKubeConfigRobust; rewrite Hout; reflexivity.
Qed.

Lemma loader_needs_service_account_files_witness :
  existsSync Cases.marker_only "/var/run/secrets/kubernetes.io/serviceaccount/token" = false
  /\ loadKubeConfigRobust (with_loadFromCluster Cases.recording None) Cases.marker_only
     = loadKubeConfigRobust Cases.recording Cases.marker_only
  /\ loadKubeConfigRobust Cases.recording Cases.marker_only = Some Spec.Default.
Proof.
  split; [reflexivity|]; split; [|reflexivity].
  apply (loader_needs_service_account_files Cases.recording Cases.marker_only None).
  right; left; reflexivity.
Defined.

(** ** The home candidate *)

Lemma append_assoc (a b c : string) : (a ++ b) ++ c = a ++ (b ++ c).
Proof. induction a as [|x a IH]; simpl; [reflexivity | now rewrite IH]. Qed.

Lemma append_empty_r (a : string) : a ++ "" = a.
Proof. induction a as [|x a IH]; simpl; [reflexivity | now rewrite IH]. Qed.

(** A piece without a slash is read into the current segment, up to the
    slash that follows it or the end of the path. *)
Lemma segments_piece (a cur rest : string) :
  no_slash a = true ->
  Path.segments cur (a ++ String "/" rest) = (cur ++ a) :: Path.segments "" rest.
Proof.
  revert cur; induction a as [|c a IH]; intros cur Ha; simpl in *.
  - now rewrite append_empty_r.
  - apply andb_prop in Ha; destruct Ha as [Hc Ha].
    destruct (c =? "/")%char; [discriminate Hc|].
    rewrite (IH _ Ha), append_assoc; reflexivity.
Qed.

Lemma segments_last (a cur : string) :
  no_slash a = true -> Path.segments cur a = [cur ++ a].
Proof.
  revert cur; induction a as [|c a IH]; intros cur Ha; simpl in *.
  - now rewrite append_empty_r.
  - apply andb_prop in Ha; destruct Ha as [Hc Ha].
    destruct (c =? "/")%char; [discriminate Hc|].
    rewrite (IH _ Ha), append_assoc; reflexivity.
Qed.

Lemma plain_no_slash (s : string) : plain s = true -> no_slash s = true.
Proof. unfold plain; intros H; now apply andb_prop in H. Qed.

(** Splitting a path that was joined from plain segments gives the
    segments back. *)
Lemma segments_concat (a : string) (l : list string) (cur : string) :
  forallb plain (a :: l) = true ->
  Path.segments cur (String.concat "/" (a :: l)) = (cur ++ a) :: l.
Proof.
  revert a cur; induction l as [|b l IH]; intros a cur Hall.
  - simpl in *; apply andb_prop in Hall; destruct Hall as [Ha _].
    apply segments_last, plain_no_slash, Ha.
  - cbn [forallb] in Hall; apply andb_prop in Hall; destruct Hall as [Ha Hl].
    change (String.concat "/" (a :: b :: l))
      with (a ++ String "/" (String.concat "/" (b :: l))).
    rewrite (segments_piece a cur _ (plain_no_slash a Ha)).
    now rewrite (IH b "" Hl).
Qed.

Lemma step_plain (kept : list string) (seg : string) :
  plain seg = true -> Path.step false kept seg = seg :: kept.
Proof.
  unfold plain, Path.step; intros H.
  apply andb_prop in H; destruct H as [H _].
  apply andb_prop in H; destruct H as [H H2].
  apply andb_prop in H; destruct H as [H0 H1].
  destruct (seg =? ""); [discriminate H0|].
  destruct (seg =? "."); [discriminate H1|].
  destruct (seg =? ".."); [discriminate H2|]; reflexivity.
Qed.

Lemma fold_step_plain (l kept : list string) :
  forallb plain l = true ->
  fold_left (Path.step false) l kept = (rev l ++ kept)%list.
Proof.
  revert kept; induction l as [|a l IH]; intros kept Hall; [reflexivity|].
  cbn [forallb] in Hall; apply andb_prop in Hall; destruct Hall as [Ha Hl].
  cbn [fold_left rev]; rewrite (step_plain kept a Ha), (IH _ Hl).
  now rewrite <- List.app_assoc.
Qed.

Lemma ends_with_slash_append (a b : string) :
  b <> "" -> Path.ends_with_slash (a ++ b) = Path.ends_with_slash b.
Proof.
  intros Hb; induction a as [|c a IH]; [reflexivity|].
  cbn [append Path.ends_with_slash]; rewrite IH.
  destruct (a ++ b) eqn:E; [|reflexivity].
  destruct a; simpl in E; [contradiction | discriminate].
Qed.

Lemma plain_does_not_end_with_slash (s : string) :
  no_slash s = true -> Path.ends_with_slash s = false.
Proof.
  induction s as [|c s IH]; [reflexivity|]; simpl; intros H.
  apply andb_prop in H; destruct H as [Hc Hs].
  destruct s; [destruct (c =? "/")%char; [discriminate Hc | reflexivity]|].
  now apply IH.
Qed.

Lemma plain_nonempty (s : string) : plain s = true -> s <> "".
Proof. unfold plain; intros H ->; discriminate H. Qed.

Lemma concat_ends_plain (a : string) (l : list string) :
  forallb plain (a :: l) = true ->
  Path.ends_with_slash (String.concat "/" (a :: l)) = false
  /\ String.concat "/" (a :: l) <> "".
Proof.
  revert a; induction l as [|b l IH]; intros a Hall;
    cbn [forallb] in Hall; apply andb_prop in Hall; destruct Hall as [Ha Hl].
  - simpl; split; [apply plain_does_not_end_with_slash, plain_no_slash, Ha
                  | apply plain_nonempty, Ha].
  - destruct (IH b Hl) as [Hends Hne].
    change (String.concat "/" (a :: b :: l))
      with (a ++ String "/" (String.concat "/" (b :: l))).
    split.
    + rewrite ends_with_slash_append by discriminate.
      change (String "/" (String.concat "/" (b :: l)))
        with ("/" ++ String.concat "/" (b :: l)).
      now rewrite ends_with_slash_append.
    + destruct a; simpl; [|discriminate].
      exfalso; exact (plain_nonempty "" Ha eq_refl).
Qed.

(** Normalising an absolute path of plain segments changes nothing. *)
Lemma normalize_plain (a : string) (l : list string) :
  forallb plain (a :: l) = true ->
  Path.normalize (absolute (a :: l)) = absolute (a :: l).
Proof.
  intros Hall; destruct (concat_ends_plain a l Hall) as [Hends Hne].
  unfold Path.normalize, absolute.
  change ("/" ++ String.concat "/" (a :: l))
    with (String "/" (String.concat "/" (a :: l))).
  cbn [String.eqb Path.starts_with_slash].
  change (Ascii.eqb "/" "/") with true; cbn [negb]; cbv iota.
  assert (Htrail : Path.ends_with_slash (String "/" (String.concat "/" (a :: l))) = false).
  { change (String "/" (String.concat "/" (a :: l)))
      with ("/" ++ String.concat "/" (a :: l)).
    now rewrite ends_with_slash_append. }
  rewrite Htrail.
  assert (Hnorm : Path.normalizeString (String "/" (String.concat "/" (a :: l))) false
                  = String.concat "/" (a :: l)).
  { unfold Path.normalizeString.
    cbn [Path.segments]; change (Ascii.eqb "/" "/") with true; cbv iota.
    rewrite (segments_concat a l "" Hall).
    cbn [append].
    change (fold_left (Path.step false) ("" :: a :: l) [])
      with (fold_left (Path.step false) (a :: l) (Path.step false [] "")).
    change (Path.step false [] "") with (@nil string).
    rewrite (fold_step_plain (a :: l) [] Hall), List.app_nil_r, rev_involutive.
    reflexivity. }
  rewrite Hnorm.
  destruct (String.concat "/" (a :: l) =? "") eqn:E;
    [apply String.eqb_eq in E; contradiction | reflexivity].
Qed.

Lemma concat_app (a : string) (l : list string) (b : string) (m : list string) :
  String.concat "/" ((a :: l) ++ b :: m)
  = String.concat "/" (a :: l) ++ "/" ++ String.concat "/" (b :: m).
Proof.
  revert a; induction l as [|c l IH]; intros a.
  - reflexivity.
  - change (String.concat "/" ((a :: c :: l) ++ b :: m))
      with (a ++ String "/" (String.concat "/" ((c :: l) ++ b :: m))).
    rewrite IH.
    change (String.concat "/" (a :: c :: l))
      with (a ++ String "/" (String.concat "/" (c :: l))).
    rewrite append_assoc; reflexivity.
Qed.

(** X19. When [HOME] is an absolute path of plain segments (no empty, [.]
    or [..] segment, no trailing slash), the home candidate of the loader is
    that path followed by [/.kube/config], letter for letter. *)
Theorem home_candidate_of_plain_home (h : Host) (a : string) (l : list string) :
  env h "HOME" = Some (absolute (a :: l)) ->
  forallb plain (a :: l) = true ->
  Path.join [home h; ".kube"; "config"] = absolute (a :: l) ++ "/.kube/config".
Proof.
  intros Henv Hall.
  unfold home; rewrite Henv.
  change (absolute (a :: l) =? "") with false; cbv iota.
  unfold Path.join; cbn [filter].
  change (absolute (a :: l) =? "") with false.
  cbn [negb String.eqb Ascii.eqb Bool.eqb].
  assert (Hjoined : String.concat "/" [absolute (a :: l); ".kube"; "config"]
                    = absolute ((a :: l) ++ [".kube"; "config"])).
  { unfold absolute; rewrite concat_app.
    cbn [String.concat]; rewrite !append_assoc; reflexivity. }
  assert (Hall' : forallb plain ((a :: l) ++ [".kube"; "config"]) = true)
    by (rewrite forallb_app, Hall; reflexivity).
  rewrite Hjoined.
  change ((a :: l) ++ [".kube"; "config"])%list
    with (a :: (l ++ [".kube"; "config"]))%list in *.
  rewrite (normalize_plain _ _ Hall').
  change (a :: (l ++ [".kube"; "config"]))%list
    with ((a :: l) ++ [".kube"; "config"])%list.
  unfold absolute; rewrite concat_app.
  cbn [String.concat]; rewrite !append_assoc; reflexivity.
Qed.

Lemma home_candidate_of_plain_home_witness :
  env Cases.workstation "HOME" = Some (absolute ["home"; "kube"])
  /\ forallb plain ["home"; "kube"] = true
  /\ Path.join [home Cases.workstation; ".kube"; "config"] = "/home/kube/.kube/config".
Proof.
  split; [reflexivity|]; split; [reflexivity|].
  apply (home_candidate_of_plain_home Cases.workstation "home" ["kube"]);
    reflexivity.
Defined.
